(** * Pattern Analysis Engine v2 (lib/analysis/patternAnalysis.ts)

    A shallow embedding of the insights engine of Decision Memory and the
    properties of its specification.

    The engine computes with JavaScript numbers.  The embedding is written
    once, over an interface [JSNumber] of the operations the source uses
    ([+], [-], [*], [/], [Math.abs], [Math.round], [<], [<=], numeric
    literals), and is run on two implementations of it:

    - [Exact]: exact rational arithmetic, with one extra value for [NaN];
    - [Binary64]: IEEE 754 double precision, through the Standard Library's
      executable specification [SpecFloat].

    Properties that only depend on the control structure of the code are
    proved for every implementation; properties about the values are proved
    on [Exact]; the concrete runs are evaluated on both. *)

From Stdlib Require Import ZArith QArith Qround Qabs Qreduction Lqa Lia.
From Stdlib Require Import Floats.SpecFloat.
From stdpp Require Import gmap strings list sorting.

Local Open Scope string_scope.
Local Open Scope list_scope.
Local Open Scope Z_scope.

(** ** JavaScript numbers *)

Class JSNumber : Type := {
  num : Type;
  (** the number with the given integer value (integer literals, array
      lengths, integer-valued fields) *)
  of_int : Z → num;
  (** the number a decimal literal [n/d] denotes, e.g. [0.3] is
      [of_ratio 3 10] *)
  of_ratio : Z → positive → num;
  (** what arithmetic makes of a value that is not a number *)
  NaN : num;
  js_add : num → num → num;
  js_sub : num → num → num;
  js_mul : num → num → num;
  js_div : num → num → num;
  Math_abs : num → num;
  Math_round : num → num;
  js_lt : num → num → bool;
  js_le : num → num → bool;
}.

Declare Scope js_scope.
Delimit Scope js_scope with js.
Infix "+" := js_add : js_scope.
Infix "-" := js_sub : js_scope.
Infix "*" := js_mul : js_scope.
Infix "/" := js_div : js_scope.
Infix "<" := js_lt : js_scope.
Infix "<=" := js_le : js_scope.
Notation "x > y" := (js_lt y x) : js_scope.
Notation "x >= y" := (js_le y x) : js_scope.

(** *** Exact arithmetic

    [Some q] is the finite number [q] and [None] is [NaN]: every operation
    propagates it and every comparison with it is false.  A division by
    zero gives [None] too, where JavaScript has [NaN] or an infinity; the
    engine never divides by zero ([generateInsights_finite] below). *)

Module Exact.

Definition lift2 (f : Q → Q → Q) (x y : option Q) : option Q :=
  match x, y with
  | Some a, Some b => Some (Qred (f a b))
  | _, _ => None
  end.

Definition div (x y : option Q) : option Q :=
  match x, y with
  | Some a, Some b => if Qeq_bool b 0 then None else Some (Qred (a / b)%Q)
  | _, _ => None
  end.

(** [Math.round]: the nearest integer, halves going towards +∞. *)
Definition round_half_up (q : Q) : Z := Qfloor (q + (1 # 2))%Q.

Definition cmp (f : Q → Q → bool) (x y : option Q) : bool :=
  match x, y with
  | Some a, Some b => f a b
  | _, _ => false
  end.

Definition Qlt_bool (a b : Q) : bool := negb (Qle_bool b a).

#[export] Instance number : JSNumber := {|
  num := option Q;
  of_int z := Some (inject_Z z);
  of_ratio n d := Some (Qred (n # d));
  NaN := None;
  js_add := lift2 Qplus;
  js_sub := lift2 Qminus;
  js_mul := lift2 Qmult;
  js_div := div;
  Math_abs x := Qabs <$> x;
  Math_round x := (λ q, inject_Z (round_half_up q)) <$> x;
  js_lt := cmp Qlt_bool;
  js_le := cmp Qle_bool;
|}.

End Exact.

(** *** IEEE 754 double precision *)

Module Binary64.

Definition prec : Z := 53.
Definition emax : Z := 1024.

Definition of_Z (z : Z) : spec_float := binary_normalize prec emax z 0 false.

(** [Math.round] of a double.  A finite double with a non-negative
    exponent is an integer already; otherwise [x = ± m / 2^k] with
    [k = - e > 0] and the result is [⌊x + 1/2⌋], computed exactly.  A zero
    result keeps the sign of [x]. *)
Definition round (x : spec_float) : spec_float :=
  match x with
  | S754_finite s m e =>
      if 0 <=? e then x
      else
        let k := - e in
        let r := (2 * cond_Zopp s (Z.pos m) + 2 ^ k) / 2 ^ (k + 1) in
        if r =? 0 then S754_zero s else binary_normalize prec emax r 0 s
  | _ => x
  end.

#[export] Instance number : JSNumber := {|
  num := spec_float;
  of_int := of_Z;
  of_ratio n d := SFdiv prec emax (of_Z n) (of_Z (Z.pos d));
  NaN := S754_nan;
  js_add := SFadd prec emax;
  js_sub := SFsub prec emax;
  js_mul := SFmul prec emax;
  js_div := SFdiv prec emax;
  Math_abs := SFabs;
  Math_round := round;
  js_lt := SFltb;
  js_le := SFleb;
|}.

End Binary64.

(** ** The data model (lib/types) *)

(** The fields the engine reads.  Enumerations are the strings they are at
    run time; [confidence] and [surprise_score] are whole numbers;
    [reviewed_at] is the time value of the date, in milliseconds. *)
Record Decision := {
  d_id : option string;
  confidence : Z;
  decision_type : string;
  importance : string;
  decision_speed : string;
}.

Record Review := {
  decision_id : string;
  expectation_comparison : string;
  surprise_score : Z;
  would_repeat : option string;
  reviewed_at : Z;
}.

Inductive ConfBand := low | mid | high | very_high.

Definition ConfBand_name (b : ConfBand) : string :=
  match b with
  | low => "low" | mid => "mid" | high => "high" | very_high => "very_high"
  end.

Inductive InsightStrength := weak | medium | strong.

#[global] Instance ConfBand_eq_dec : EqDecision ConfBand.
Proof. solve_decision. Defined.
#[global] Instance InsightStrength_eq_dec : EqDecision InsightStrength.
Proof. solve_decision. Defined.

(** [String(d.id)] *)
Definition String_of_id (i : option string) : string :=
  match i with Some s => s | None => "undefined" end.

(** ** Per-insight minimum sample sizes *)

Module GATING_THRESHOLDS.
Definition baselineCard : nat := 3.
Definition segments : nat := 8.
Definition segmentMinSamples : nat := 5.
Definition trends : nat := 12.
End GATING_THRESHOLDS.

(** ** Arrays *)

(** [Array.prototype.sort(comparefn)], which is stable: [after a b] is
    [comparefn(a, b) > 0], and an element is placed behind exactly the
    elements that have to come before it. *)
Fixpoint sort_insert {A} (after : A → A → bool) (x : A) (l : list A) : list A :=
  match l with
  | [] => [x]
  | y :: l' => if after x y then y :: sort_insert after x l' else x :: l
  end.

Definition js_sort {A} (after : A → A → bool) (l : list A) : list A :=
  foldr (sort_insert after) [] l.

(** The index an argument of [slice] denotes in an array of length [len]:
    a negative one counts from the end, and both are clamped. *)
Definition slice_index (len : nat) (i : Z) : nat :=
  if i <? 0 then Z.to_nat (Z.max (Z.of_nat len + i) 0)
  else Nat.min (Z.to_nat i) len.

Definition slice {A} (l : list A) (first last : Z) : list A :=
  let k := slice_index (length l) first in
  take (slice_index (length l) last - k) (drop k l).

Definition slice_from {A} (l : list A) (first : Z) : list A :=
  drop (slice_index (length l) first) l.

(** ** The outcome mapping *)

(** The own properties of the object literal [OUTCOME_SCORE_MAP]. *)
Definition OUTCOME_SCORE_MAP : gmap string Z :=
  list_to_map
    [("much_worse", -2); ("slightly_worse", -1); ("as_expected", 0);
     ("slightly_better", 1); ("much_better", 2)].

(** The property names an object literal inherits from [Object.prototype].
    Indexing an object by one of them finds the inherited member (a
    function, or the prototype itself for [__proto__]), which is neither
    [undefined] nor [null]. *)
Definition Object_prototype_names : list string :=
  ["constructor"; "hasOwnProperty"; "isPrototypeOf"; "propertyIsEnumerable";
   "toLocaleString"; "toString"; "valueOf"; "__defineGetter__";
   "__defineSetter__"; "__lookupGetter__"; "__lookupSetter__"; "__proto__"].

Inductive property := own (score : Z) | inherited | undefined.

(** [OUTCOME_SCORE_MAP[key]] *)
Definition OUTCOME_SCORE_MAP_get (key : string) : property :=
  match OUTCOME_SCORE_MAP !! key with
  | Some score => own score
  | None => if bool_decide (key ∈ Object_prototype_names) then inherited else undefined
  end.

Section engine.
Context `{JSNumber}.

Definition of_nat (n : nat) : num := of_int (Z.of_nat n).

(** [===] on numbers: two numbers are equal exactly when each is [<=]
    the other *)
Definition js_eq (x y : num) : bool := (x <= y)%js && (y <= x)%js.

(** [arr.reduce((s, x) => s + fn(x), 0)] *)
Definition sum_by {A} (fn : A → num) (arr : list A) : num :=
  foldl (λ s x, (s + fn x)%js) (of_int 0) arr.

(** [arr[i]] in arithmetic; reading outside the array gives [undefined] *)
Definition js_index (arr : list Z) (i : Z) : num :=
  if i <? 0 then NaN else from_option of_int NaN (arr !! Z.to_nat i).

(** [OUTCOME_SCORE_MAP[key] ?? 0], as the operand of [+], [>] and [===]
    it becomes: an inherited member is not a number, it turns a sum into
    a string that [/ n] reads back as [NaN], and compares false with
    every number. *)
Definition outcome_score (key : string) : num :=
  match OUTCOME_SCORE_MAP_get key with
  | own score => of_int score
  | inherited => NaN
  | undefined => of_int 0
  end.

(** Confidence bands and probability proxies *)
Definition confBand (conf : Z) : ConfBand :=
  if conf <=? 39 then low
  else if conf <=? 59 then mid
  else if conf <=? 79 then high
  else very_high.

Definition confProbFromBand (b : ConfBand) : num :=
  match b with
  | low => of_ratio 3 10
  | mid => of_ratio 5 10
  | high => of_ratio 7 10
  | very_high => of_ratio 9 10
  end.

(** Outcome probability proxy *)
Definition outcomeProbFromScore (score : num) : num :=
  if (score > of_int 0)%js then of_int 1
  else if js_eq score (of_int 0) then of_ratio 5 10
  else of_int 0.

(** Derived per-decision fields *)
Record DerivedDecision := {
  decision : Decision;
  review : Review;
  outcomeScore : num;
  d_confBand : ConfBand;
  confProb : num;
  outcomeProb : num;
  calibrationError : num;
  reviewedAt : Z;
}.

Record InsightEvidence := {
  ev_n : nat;
  ev_metric : string;
  ev_value : num;
  ev_baseline : option num;
  ev_lift : option num;
}.

(** The title, message and action hint of a card are display strings
    built from the same values; they are left out. *)
Record InsightCard := {
  card_id : string;
  tags : list string;
  strength : InsightStrength;
  evidence : list InsightEvidence;
}.

Record Baseline := {
  reviewCount : nat;
  avgOutcomeScore : num;
  avgSurprise : num;
  avgCalibrationError : num;
}.

(** The cards, the baseline and the counts of the result.  The four
    legacy summaries are computed from the derived records after the
    cards and feed nothing back into them; they are added to this record
    by [LegacyInsights]. *)
Record Insights := {
  cards : list InsightCard;
  baseline : Baseline;
  ins_reviewCount : nat;
  minimumReviewsNeeded : nat;
}.

(** [Math.round(n * Math.pow(10, digits)) / Math.pow(10, digits)] with
    [digits = 2] *)
Definition round (n : num) : num :=
  (Math_round (n * of_int 100) / of_int 100)%js.

(** *** Preprocess decisions+reviews into derived records *)

(** [new Map(reviews.map((r) => [r.decision_id, r]))]: a later entry
    replaces an earlier one with the same key. *)
Definition reviewMap (reviews : list Review) : gmap string Review :=
  foldl (λ m r, <[decision_id r := r]> m) ∅ reviews.

Definition derive_one (d : Decision) (r : Review) : DerivedDecision :=
  let outcomeScore := outcome_score (expectation_comparison r) in
  let band := confBand (confidence d) in
  let confProb := confProbFromBand band in
  let outcomeProb := outcomeProbFromScore outcomeScore in
  let calibrationError := Math_abs (confProb - outcomeProb)%js in
  {| decision := d; review := r; outcomeScore := outcomeScore;
     d_confBand := band; confProb := confProb; outcomeProb := outcomeProb;
     calibrationError := calibrationError; reviewedAt := reviewed_at r |}.

(** The records pushed by the loop, before sorting. *)
Definition derive_pairs (decisions : list Decision) (reviews : list Review)
  : list DerivedDecision :=
  omap (λ d, derive_one d <$> reviewMap reviews !! String_of_id (d_id d)) decisions.

Definition derive (decisions : list Decision) (reviews : list Review)
  : list DerivedDecision :=
  js_sort (λ a b, reviewedAt a - reviewedAt b >? 0) (derive_pairs decisions reviews).

(** *** Baselines for the entire reviewed population *)
Definition computeBaselines (derived : list DerivedDecision) : Baseline :=
  let n := length derived in
  if decide (n = 0%nat) then
    {| reviewCount := 0; avgOutcomeScore := of_int 0; avgSurprise := of_int 0;
       avgCalibrationError := of_int 0 |}
  else
    let avgOutcomeScore := (sum_by outcomeScore derived / of_nat n)%js in
    let avgSurprise :=
      (sum_by (λ d, of_int (surprise_score (review d))) derived / of_nat n)%js in
    let avgCalibrationError := (sum_by calibrationError derived / of_nat n)%js in
    {| reviewCount := n; avgOutcomeScore := round avgOutcomeScore;
       avgSurprise := round avgSurprise;
       avgCalibrationError := round avgCalibrationError |}.

(** *** Segment miner: candidate segments and their lift vs baseline *)

Definition decisionTypes : list string :=
  ["personal"; "work"; "finance"; "health"; "other"].
Definition importances : list string := ["low"; "medium"; "high"].
Definition speeds : list string := ["quick"; "moderate"; "slow"].
Definition confBands : list ConfBand := [low; mid; high; very_high].

Record Segment := {
  seg_type : string;
  seg_imp : string;
  seg_spd : string;
  seg_band : ConfBand;
}.

(** The candidates, in the order the four nested loops visit them. *)
Definition candidates : list Segment :=
  type ← decisionTypes; imp ← importances; spd ← speeds; band ← confBands;
  [ {| seg_type := type; seg_imp := imp; seg_spd := spd; seg_band := band |} ].

Definition in_segment (c : Segment) (d : DerivedDecision) : Prop :=
  decision_type (decision d) = seg_type c ∧
  importance (decision d) = seg_imp c ∧
  decision_speed (decision d) = seg_spd c ∧
  d_confBand d = seg_band c.

#[global] Instance in_segment_dec c d : base.Decision (in_segment c d).
Proof. unfold in_segment. apply _. Defined.

Definition segment_id (c : Segment) : string :=
  "seg-" +:+ seg_type c +:+ "-" +:+ seg_imp c +:+ "-" +:+ seg_spd c
    +:+ "-" +:+ ConfBand_name (seg_band c).

(** The metrics of one candidate's records. *)
Record SegmentMetrics := {
  m_n : nat;
  m_avgOutcome : num;
  m_avgSurprise : num;
  m_repeatRate : num;
  m_avgCalError : num;
  m_outcomeLift : num;
  m_surpriseLift : num;
  m_calErrorLift : num;
}.

Definition segment_metrics (seg : list DerivedDecision) (baseline : Baseline)
  : SegmentMetrics :=
  let n := length seg in
  let avgOutcome := (sum_by outcomeScore seg / of_nat n)%js in
  let avgSurprise' :=
    (sum_by (λ x, of_int (surprise_score (review x))) seg / of_nat n)%js in
  let repeatRate :=
    (sum_by (λ x, if decide (would_repeat (review x) = Some "yes")
                  then of_int 1 else of_int 0) seg / of_nat n)%js in
  let avgCalError := (sum_by calibrationError seg / of_nat n)%js in
  let has_baseline := negb (reviewCount baseline =? 0)%nat in
  {| m_n := n; m_avgOutcome := avgOutcome; m_avgSurprise := avgSurprise';
     m_repeatRate := repeatRate; m_avgCalError := avgCalError;
     m_outcomeLift :=
       if has_baseline then (avgOutcome - avgOutcomeScore baseline)%js else of_int 0;
     m_surpriseLift :=
       if has_baseline then (avgSurprise' - avgSurprise baseline)%js else of_int 0;
     m_calErrorLift :=
       if has_baseline then (avgCalError - avgCalibrationError baseline)%js
       else of_int 0 |}.

(** decide if this segment is interesting by simple heuristics *)
Definition interesting (m : SegmentMetrics) : bool :=
  (Math_abs (m_outcomeLift m) >= of_ratio 5 10)%js
  || (Math_abs (m_surpriseLift m) >= of_int 12)%js
  || (Math_abs (m_calErrorLift m) >= of_ratio 15 100)%js
  || (m_repeatRate m < of_ratio 5 10)%js.

(** strength scoring *)
Definition strength_score (m : SegmentMetrics) : num :=
  (Math_abs (m_outcomeLift m) * of_int 2 + Math_abs (m_surpriseLift m) / of_int 10
   + Math_abs (m_calErrorLift m) * of_int 3
   + (if (6 <=? m_n m)%nat then of_int 1 else of_int 0))%js.

Definition segment_strength (m : SegmentMetrics) : InsightStrength :=
  let score := strength_score m in
  if (score > of_int 3)%js then strong
  else if (score > of_ratio 12 10)%js then medium
  else weak.

Definition segment_evidence (m : SegmentMetrics) (baseline : Baseline)
  : list InsightEvidence :=
  [ {| ev_n := m_n m; ev_metric := "avgOutcome"; ev_value := round (m_avgOutcome m);
       ev_baseline := Some (avgOutcomeScore baseline);
       ev_lift := Some (round (m_outcomeLift m)) |};
    {| ev_n := m_n m; ev_metric := "avgSurprise"; ev_value := round (m_avgSurprise m);
       ev_baseline := Some (avgSurprise baseline);
       ev_lift := Some (round (m_surpriseLift m)) |};
    {| ev_n := m_n m; ev_metric := "avgCalibrationError";
       ev_value := round (m_avgCalError m);
       ev_baseline := Some (avgCalibrationError baseline);
       ev_lift := Some (round (m_calErrorLift m)) |};
    {| ev_n := m_n m; ev_metric := "repeatRate";
       ev_value := round (m_repeatRate m * of_int 100)%js;
       ev_baseline := None; ev_lift := None |} ].

(** One turn of the innermost loop: the card it pushes, if any. *)
Definition segment_card (derived : list DerivedDecision) (baseline : Baseline)
    (c : Segment) : option InsightCard :=
  let seg := filter (in_segment c) derived in
  if decide (length seg = 0%nat) then None
  else
    let m := segment_metrics seg baseline in
    (* require minimum samples for segments to be considered strong *)
    if (m_n m <? GATING_THRESHOLDS.segmentMinSamples)%nat then None
    else if negb (interesting m) then None
    else
      Some {| card_id := segment_id c;
              tags := ["segment"; seg_type c; seg_imp c; seg_spd c;
                       ConfBand_name (seg_band c)];
              strength := segment_strength m;
              evidence := segment_evidence m baseline |}.

(** The key of the final sort: the sum of the absolute lifts of the
    evidence that has a lift. *)
Definition lift_score (card : InsightCard) : num :=
  sum_by (λ e, match ev_lift e with
               | Some l => Math_abs l
               | None => of_int 0
               end) (evidence card).

Definition segment_cards (derived : list DerivedDecision) (baseline : Baseline)
  : list InsightCard :=
  omap (segment_card derived baseline) candidates.

Definition mineSegments (derived : list DerivedDecision) (baseline : Baseline)
  : list InsightCard :=
  let segments :=
    js_sort (λ a b, (lift_score b - lift_score a > of_int 0)%js)
            (segment_cards derived baseline) in
  slice segments 0 6.

(** *** Trend analyzer: compare last N vs previous N *)

(** [arr.reduce((s, x) => s + fn(x), 0) / arr.length] *)
Definition avg (arr : list DerivedDecision) (fn : DerivedDecision → num) : num :=
  (sum_by fn arr / of_nat (length arr))%js.

Definition trend_card (name metric : string) (lastN : nat) (delta : num)
    (threshold strong_above : num) : list InsightCard :=
  if (Math_abs delta >= threshold)%js then
    [ {| card_id := "trend-" +:+ name;
         tags := ["trend"; name];
         strength := if (Math_abs delta > strong_above)%js then strong else medium;
         evidence := [ {| ev_n := lastN; ev_metric := metric; ev_value := delta;
                          ev_baseline := None; ev_lift := None |} ] |} ]
  else [].

Definition trend_deltas (tail prev : list DerivedDecision) : num * num * num :=
  (round (avg tail outcomeScore - avg prev outcomeScore)%js,
   round (avg tail (λ d, of_int (surprise_score (review d)))
          - avg prev (λ d, of_int (surprise_score (review d))))%js,
   round (avg tail calibrationError - avg prev calibrationError)%js).

Definition analyzeTrends (derived : list DerivedDecision) : list InsightCard :=
  let n := length derived in
  let window := 10%nat in
  if (n <? 2)%nat then []
  else
    let lastN := Nat.min window (n / 2)%nat in
    if (lastN <? 1)%nat then []
    else
      let tail := slice_from derived (- Z.of_nat lastN) in
      let prev := slice derived (- Z.of_nat lastN * 2) (- Z.of_nat lastN) in
      if decide (length prev = 0%nat) then []
      else
        let '(outcomeDelta, surpriseDelta, calErrorDelta) := trend_deltas tail prev in
        trend_card "outcome" "outcomeDelta" lastN outcomeDelta
                   (of_ratio 5 10) (of_int 1)
        ++ trend_card "surprise" "surpriseDelta" lastN surpriseDelta
                      (of_int 8) (of_int 15)
        ++ trend_card "calibration" "calErrorDelta" lastN calErrorDelta
                      (of_ratio 5 100) (of_ratio 12 100).

(** *** Generate insights v2 *)

(** [derived.map(d => d.decision.confidence).sort((a,b)=>a-b)] *)
Definition sorted_confidence (derived : list DerivedDecision) : list Z :=
  js_sort (λ a b, a - b >? 0) (map (λ d, confidence (decision d)) derived).

Definition medianConfidence (derived : list DerivedDecision) : num :=
  let arr := sorted_confidence derived in
  let m := Z.of_nat (length arr / 2) in
  if decide (length arr `mod` 2 = 1)%nat then js_index arr m
  else Math_round ((js_index arr (m - 1) + js_index arr m) / of_int 2)%js.

(** The two indices are [Math.floor((arr.length - 1) * 0.25)] and
    [Math.floor((arr.length - 1) * 0.75)]; the products by 0.25 and 0.75
    are exact, so they are the integer quotients by 4. *)
Definition iqr (derived : list DerivedDecision) : num :=
  let arr := sorted_confidence derived in
  let q1 := js_index arr ((Z.of_nat (length arr) - 1) / 4) in
  let q3 := js_index arr ((Z.of_nat (length arr) - 1) * 3 / 4) in
  (q3 - q1)%js.

Definition confCard (derived : list DerivedDecision) (baseline : Baseline)
  : InsightCard :=
  let n := length derived in
  {| card_id := "calibration-summary";
     tags := ["calibration"];
     strength := if (8 <=? n)%nat then strong else medium;
     evidence :=
       [ {| ev_n := n; ev_metric := "medianConfidence";
            ev_value := medianConfidence derived;
            ev_baseline := None; ev_lift := None |};
         {| ev_n := n; ev_metric := "iqr"; ev_value := iqr derived;
            ev_baseline := None; ev_lift := None |};
         {| ev_n := n; ev_metric := "avgCalibrationError";
            ev_value := avgCalibrationError baseline;
            ev_baseline := None; ev_lift := None |} ] |}.

Definition generateInsights (decisions : list Decision) (reviews : list Review)
  : Insights :=
  let derived := derive decisions reviews in
  let baseline := computeBaselines derived in
  let reviewCount := length derived in
  let cards :=
    (* Gate 1: Show baseline calibration card after 3+ reviews *)
    (if (GATING_THRESHOLDS.baselineCard <=? reviewCount)%nat
        && (0 <? length derived)%nat
     then [confCard derived baseline] else [])
    (* Gate 2: Segment miner (show after 8+ reviews) *)
    ++ (if (GATING_THRESHOLDS.segments <=? reviewCount)%nat
        then mineSegments derived baseline else [])
    (* Gate 3: Trend analyzer (show after 12+ reviews) *)
    ++ (if (GATING_THRESHOLDS.trends <=? reviewCount)%nat
        then analyzeTrends derived else []) in
  {| cards := cards; baseline := baseline; ins_reviewCount := reviewCount;
     minimumReviewsNeeded := GATING_THRESHOLDS.baselineCard |}.

End engine.

(** ** The legacy summaries (generateInsights, after the cards)

    The second half of [generateInsights] builds four summaries for the
    insights page from the derived records: confidence, surprise by
    domain, speed against regret, and repeat rate.  Their [emoji] and
    [message] fields are constant display strings; they are left out. *)

(** [Infinity] and [-Infinity] are the initial values of running extremes;
    the numbers the engine computes are only compared against them. *)
Class JSInfinity `{JSNumber} : Type := {
  (** [x > -Infinity] *)
  above_neg_Infinity : num → bool;
  (** [x < Infinity] *)
  below_Infinity : num → bool;
}.

(** A finite number lies strictly between the infinities, [NaN] does not. *)
Definition Exact_is_number (x : option Q) : bool := bool_decide (is_Some x).

#[global] Instance Exact_infinity : @JSInfinity Exact.number :=
  @Build_JSInfinity Exact.number Exact_is_number Exact_is_number.

#[global] Instance Binary64_infinity : @JSInfinity Binary64.number :=
  @Build_JSInfinity Binary64.number
    (SFltb (S754_infinity true)) (λ x, SFltb x (S754_infinity false)).

Inductive Calibration := well_calibrated | overconfident | underconfident.

#[global] Instance Calibration_eq_dec : EqDecision Calibration.
Proof. solve_decision. Defined.

(** What a strict-mode assignment to a property of a primitive value
    raises. *)
Inductive Exception := TypeError.

Section legacy.
Context `{JSNumber} `{!JSInfinity}.

(** *** Confidence insight *)

Record ConfidenceInsight := {
  averageConfidence : num;
  wellCalibratedCount : nat;
  overconfidentCount : nat;
  underconfidentCount : nat;
}.

(** One turn of the loop: the counter it increments. *)
Definition calibration (d : DerivedDecision) : Calibration :=
  let bandP := confProb d in
  let outP := outcomeProb d in
  if (Math_abs (bandP - outP) <= of_ratio 15 100)%js then well_calibrated
  else if (bandP > outP)%js then overconfident
  else underconfident.

Definition calibration_counts (derived : list DerivedDecision) : nat * nat * nat :=
  foldl (λ '(well, over', under') d,
           match calibration d with
           | well_calibrated => (S well, over', under')
           | overconfident => (well, S over', under')
           | underconfident => (well, over', S under')
           end)
        (0, 0, 0)%nat derived.

Definition confidenceInsight (derived : list DerivedDecision) : ConfidenceInsight :=
  let reviewCount := length derived in
  let avgConf :=
    Math_round (sum_by (λ d, of_int (confidence (decision d))) derived
                / of_nat reviewCount)%js in
  let '(well, over', under') := calibration_counts derived in
  {| averageConfidence := avgConf; wellCalibratedCount := well;
     overconfidentCount := over'; underconfidentCount := under' |}.

(** *** Surprise insight *)

Record SurpriseInsight := {
  averageSurpriseScore : num;
  mostSurprisedDomain : option string;
  leastSurprisedDomain : option string;
}.

Record DomainTotal := { dom_n : nat; dom_tot : num }.

(** [domainMap.get(k) ?? { n: 0, tot: 0 }], the two updates of the entry
    and [domainMap.set(k, cur)].  A [Map] iterates over its keys in the
    order in which they were first inserted. *)
Fixpoint domainMap_add (k : string) (surprise : num) (m : list (string * DomainTotal))
  : list (string * DomainTotal) :=
  match m with
  | [] => [(k, {| dom_n := 1; dom_tot := (of_int 0 + surprise)%js |})]
  | (k', cur) :: m' =>
      if decide (k' = k)
      then (k', {| dom_n := S (dom_n cur); dom_tot := (dom_tot cur + surprise)%js |}) :: m'
      else (k', cur) :: domainMap_add k surprise m'
  end.

Definition domainMap (derived : list DerivedDecision) : list (string * DomainTotal) :=
  foldl (λ m d, domainMap_add (decision_type (decision d))
                              (of_int (surprise_score (review d))) m)
        [] derived.

(** The state of the second loop.  [mostVal] and [leastVal] are [None]
    while they still hold their initial values [-Infinity] and
    [Infinity]. *)
Record Extremes := {
  most : option string;
  least : option string;
  mostVal : option num;
  leastVal : option num;
}.

(** [av > mostVal] and [av < leastVal] *)
Definition exceeds (av : num) (mostVal : option num) : bool :=
  match mostVal with
  | Some v => (av > v)%js
  | None => above_neg_Infinity av
  end.

Definition undercuts (av : num) (leastVal : option num) : bool :=
  match leastVal with
  | Some v => (av < v)%js
  | None => below_Infinity av
  end.

Definition extremes_step (e : Extremes) (entry : string * DomainTotal) : Extremes :=
  let k := entry.1 in
  let v := entry.2 in
  let av := (dom_tot v / of_nat (dom_n v))%js in
  let e' :=
    if exceeds av (mostVal e)
    then {| most := Some k; least := least e; mostVal := Some av;
            leastVal := leastVal e |}
    else e in
  if undercuts av (leastVal e')
  then {| most := most e'; least := Some k; mostVal := mostVal e';
          leastVal := Some av |}
  else e'.

Definition domain_extremes (m : list (string * DomainTotal)) : Extremes :=
  foldl extremes_step
        {| most := None; least := None; mostVal := None; leastVal := None |} m.

Definition surpriseInsight (derived : list DerivedDecision) : SurpriseInsight :=
  let reviewCount := length derived in
  let avgSurprise' :=
    round (sum_by (λ d, of_int (surprise_score (review d))) derived
           / of_nat reviewCount)%js in
  let e := domain_extremes (domainMap derived) in
  {| averageSurpriseScore := avgSurprise'; mostSurprisedDomain := most e;
     leastSurprisedDomain := least e |}.

(** *** Speed insight *)

Record SpeedInsight := {
  quickDecisionsRegretRate : num;
  moderateDecisionsRegretRate : num;
  slowDecisionsRegretRate : num;
}.

Record Bucket := { b_n : nat; b_regret : nat }.

(** The object [buckets] during the loop.  It is indexed by whatever
    string [decision_speed] holds, so next to the three buckets of the
    literal it records
    - [own_keys]: the other own properties that [buckets[s] = b] has given
      it (their values are objects that are never read again), and
    - [prototype_keys]: the properties that [b.n++] and [b.regret++] have
      given to [Object.prototype], which happens when [s] is [__proto__]:
      then [buckets[s]] is the prototype itself.  Their value is [NaN], and
      every object inherits them. *)
Record Buckets := {
  quick : Bucket;
  moderate : Bucket;
  slow : Bucket;
  own_keys : gset string;
  prototype_keys : gset string;
}.

Definition increment (regret : bool) (b : Bucket) : Bucket :=
  {| b_n := S (b_n b);
     b_regret := if regret then S (b_regret b) else b_regret b |}.

(** One turn of the loop.  For a speed other than the three of the
    literal, [buckets[s]] is
    - the object stored by an earlier turn, when [s] is an own key;
    - [Object.prototype], when [s] is [__proto__]: the increments create
      [n] (and [regret]) on it, and the assignment [buckets[s] = b] sets
      the prototype of [buckets] to what it already is;
    - an inherited function, when [s] names another member of
      [Object.prototype]: the increments store [NaN] on that function and
      the assignment makes it an own property of [buckets];
    - [NaN], when [s] is a property an earlier turn has created on
      [Object.prototype]: then [b] is a number and [b.n++] raises
      [TypeError], the code being strict;
    - [undefined] otherwise, and [??] supplies a fresh bucket. *)
Definition buckets_step (bs : Buckets) (d : DerivedDecision) : Exception + Buckets :=
  let s := decision_speed (decision d) in
  let regret := bool_decide (would_repeat (review d) = Some "no") in
  if decide (s = "quick") then
    inr {| quick := increment regret (quick bs); moderate := moderate bs;
           slow := slow bs; own_keys := own_keys bs;
           prototype_keys := prototype_keys bs |}
  else if decide (s = "moderate") then
    inr {| quick := quick bs; moderate := increment regret (moderate bs);
           slow := slow bs; own_keys := own_keys bs;
           prototype_keys := prototype_keys bs |}
  else if decide (s = "slow") then
    inr {| quick := quick bs; moderate := moderate bs;
           slow := increment regret (slow bs); own_keys := own_keys bs;
           prototype_keys := prototype_keys bs |}
  else if decide (s ∈ own_keys bs) then inr bs
  else if decide (s = "__proto__") then
    inr {| quick := quick bs; moderate := moderate bs; slow := slow bs;
           own_keys := own_keys bs;
           prototype_keys :=
             {["n"]} ∪ (if regret then {["regret"]} else ∅) ∪ prototype_keys bs |}
  else if decide (s ∈ Object_prototype_names) then
    inr {| quick := quick bs; moderate := moderate bs; slow := slow bs;
           own_keys := {[s]} ∪ own_keys bs;
           prototype_keys := prototype_keys bs |}
  else if decide (s ∈ prototype_keys bs) then inl TypeError
  else
    inr {| quick := quick bs; moderate := moderate bs; slow := slow bs;
           own_keys := {[s]} ∪ own_keys bs;
           prototype_keys := prototype_keys bs |}.

Definition initial_buckets : Buckets :=
  {| quick := {| b_n := 0; b_regret := 0 |};
     moderate := {| b_n := 0; b_regret := 0 |};
     slow := {| b_n := 0; b_regret := 0 |};
     own_keys := ∅; prototype_keys := ∅ |}.

(** The loop, from any state: it stops at the first turn that raises. *)
Definition fill_from (start : Exception + Buckets) (l : list DerivedDecision)
  : Exception + Buckets :=
  foldl (λ acc d, match acc with
                  | inl e => inl e
                  | inr bs => buckets_step bs d
                  end)
        start l.

Definition fill_buckets (derived : list DerivedDecision) : Exception + Buckets :=
  fill_from (inr initial_buckets) derived.

(** [b.n ? Math.round((b.regret / b.n) * 100) : 0] *)
Definition regret_rate (b : Bucket) : num :=
  if (b_n b =? 0)%nat then of_int 0
  else Math_round ((of_nat (b_regret b) / of_nat (b_n b)) * of_int 100)%js.

Definition speedInsight (derived : list DerivedDecision) : Exception + SpeedInsight :=
  match fill_buckets derived with
  | inl e => inl e
  | inr buckets =>
      inr {| quickDecisionsRegretRate := regret_rate (quick buckets);
             moderateDecisionsRegretRate := regret_rate (moderate buckets);
             slowDecisionsRegretRate := regret_rate (slow buckets) |}
  end.

(** *** Repeat insight *)

Record RepeatInsight := {
  repeatRate : num;
  wouldRepeatCount : nat;
  wouldNotRepeatCount : nat;
  unsureCount : nat;
}.

Definition repeat_counts (derived : list DerivedDecision) : nat * nat * nat :=
  foldl (λ '(would, wouldNot, unsure) d,
           if decide (would_repeat (review d) = Some "yes")
           then (S would, wouldNot, unsure)
           else if decide (would_repeat (review d) = Some "no")
           then (would, S wouldNot, unsure)
           else (would, wouldNot, S unsure))
        (0, 0, 0)%nat derived.

Definition repeatInsight (derived : list DerivedDecision) : RepeatInsight :=
  let reviewCount := length derived in
  let '(would, wouldNot, unsure) := repeat_counts derived in
  let rate := Math_round ((of_nat would / of_nat reviewCount) * of_int 100)%js in
  {| repeatRate := rate; wouldRepeatCount := would;
     wouldNotRepeatCount := wouldNot; unsureCount := unsure |}.

(** *** The result as a whole *)

(** [ins] holds the cards, the baseline and the two counts. *)
Record LegacyInsights := {
  ins : Insights;
  ins_confidence : option ConfidenceInsight;
  ins_surprise : option SurpriseInsight;
  ins_speed : option SpeedInsight;
  ins_repeat : option RepeatInsight;
}.

(** [generateInsights] with its legacy part: the object it returns, or
    the exception it raises (its promise is then rejected).  The call is
    one in a realm whose [Object.prototype] has its standard members only:
    what a call stores on it is not carried over to a later call. *)
Definition generateInsights_legacy (decisions : list Decision) (reviews : list Review)
  : Exception + LegacyInsights :=
  let derived := derive decisions reviews in
  let reviewCount := length derived in
  let minimumReviewsNeeded := GATING_THRESHOLDS.baselineCard in
  (* Confidence insight (show after 3+ reviews) *)
  let confidence :=
    if (minimumReviewsNeeded <=? reviewCount)%nat
    then Some (confidenceInsight derived) else None in
  (* Surprise insight (show after 3+ reviews) *)
  let surprise :=
    if (minimumReviewsNeeded <=? reviewCount)%nat
    then Some (surpriseInsight derived) else None in
  (* Speed insight (show after 3+ reviews) *)
  let speed :=
    if (minimumReviewsNeeded <=? reviewCount)%nat
    then match speedInsight derived with
         | inl e => inl e
         | inr s => inr (Some s)
         end
    else inr None in
  (* Repeat insight (show after 3+ reviews) *)
  let repeat :=
    if (minimumReviewsNeeded <=? reviewCount)%nat
    then Some (repeatInsight derived) else None in
  match speed with
  | inl e => inl e
  | inr speed =>
      inr {| ins := generateInsights decisions reviews;
             ins_confidence := confidence; ins_surprise := surprise;
             ins_speed := speed; ins_repeat := repeat |}
  end.

End legacy.

(** ** The insights page (components/InsightsView)

    The page loads the decisions and the reviews, calls [generateInsights]
    and renders one of five screens.  The embedding keeps what decides the
    screen and what it shows of the result: the titles of the summary
    cards and the values interpolated into their lines; layout and fixed
    texts are left out. *)

Section view.
Context `{JSNumber} `{!JSInfinity}.

(** A line of a card: its text up to the interpolated value, and the
    value. *)
Inductive Detail :=
  | number_line (label : string) (value : num)
  | count_line (label : string) (value : nat)
  | domain_line (label : string) (value : string).

Record SummaryCard := { title : string; details : list Detail }.

Inductive Screen :=
  | Analyzing
  | ErrorMessage (error : Exception)
  | UnableToLoad
  | StillForming (reviewed : nat) (more : Z)
  | HowYouThink (reviewed : nat) (summaries : list SummaryCard).

(** The state of the component. *)
Record ViewState := {
  st_insights : option LegacyInsights;
  st_loading : bool;
  st_error : option Exception;
}.

Definition initial_state : ViewState :=
  {| st_insights := None; st_loading := true; st_error := None |}.

(** [loadInsights], once it has settled: the [try] stores the result,
    the [catch] the message of the error, and the [finally] ends the
    loading. *)
Definition loadInsights (decisions : list Decision) (reviews : list Review)
    (st : ViewState) : ViewState :=
  match generateInsights_legacy decisions reviews with
  | inr generated =>
      {| st_insights := Some generated; st_loading := false;
         st_error := st_error st |}
  | inl err =>
      {| st_insights := st_insights st; st_loading := false;
         st_error := Some err |}
  end.

(** [x ? [line] : []] for a domain: [undefined] and the empty string are
    falsy. *)
Definition domain_lines (label : string) (domain : option string) : list Detail :=
  match domain with
  | Some k => if decide (k = "") then [] else [domain_line label k]
  | None => []
  end.

Definition confidence_card (c : ConfidenceInsight) : SummaryCard :=
  {| title := "Confidence Reality Gap";
     details :=
       [ number_line "Average confidence: " (averageConfidence c);
         count_line "Well-calibrated: " (wellCalibratedCount c);
         count_line "Overconfident moments: " (overconfidentCount c);
         count_line "Underconfident moments: " (underconfidentCount c) ] |}.

Definition surprise_card (s : SurpriseInsight) : SummaryCard :=
  {| title := "Surprise Patterns";
     details :=
       number_line "Average surprise score: " (averageSurpriseScore s)
       :: domain_lines "Most surprising: " (mostSurprisedDomain s)
       ++ domain_lines "Most predictable: " (leastSurprisedDomain s) |}.

Definition speed_card (s : SpeedInsight) : SummaryCard :=
  {| title := "Speed & Regret";
     details :=
       [ number_line "Quick decisions regretted: " (quickDecisionsRegretRate s);
         number_line "Moderate decisions regretted: " (moderateDecisionsRegretRate s);
         number_line "Slow decisions regretted: " (slowDecisionsRegretRate s) ] |}.

Definition repeat_card (r : RepeatInsight) : SummaryCard :=
  {| title := "Repeat Rate";
     details :=
       [ number_line "Would repeat: " (repeatRate r);
         count_line "Repeat-worthy decisions: " (wouldRepeatCount r);
         count_line "Regretted decisions: " (wouldNotRepeatCount r);
         count_line "Unsure about: " (unsureCount r) ] |}.

(** [{insights.x && <InsightCard ... />}] *)
Definition shown {A} (card : A → SummaryCard) (x : option A) : list SummaryCard :=
  match x with Some a => [card a] | None => [] end.

(** What the component renders in a state. *)
Definition InsightsView (st : ViewState) : Screen :=
  if st_loading st then Analyzing
  else
    match st_error st with
    | Some error => ErrorMessage error
    | None =>
        match st_insights st with
        | None => UnableToLoad
        | Some insights =>
            let reviewCount := ins_reviewCount (ins insights) in
            let needed := minimumReviewsNeeded (ins insights) in
            if (reviewCount <? needed)%nat
            then StillForming reviewCount (Z.of_nat needed - Z.of_nat reviewCount)
            else HowYouThink reviewCount
                   (shown confidence_card (ins_confidence insights)
                    ++ shown surprise_card (ins_surprise insights)
                    ++ shown speed_card (ins_speed insights)
                    ++ shown repeat_card (ins_repeat insights))
        end
    end.

End view.

(** ** Metrics (lib/analysis/metrics.ts)

    The metrics that need no square root.  They read the fields the types
    declare as always present ([confidence], [importance],
    [surprise_score]), so the fallbacks of their [??] are never taken and
    are left out. *)

Module metrics.

(** Basic numeric mapping helpers *)
Definition expectationToNumeric (e : string) : Z :=
  if decide (e = "much_better") then 2
  else if decide (e = "slightly_better") then 1
  else if decide (e = "as_expected") then 0
  else if decide (e = "slightly_worse") then -1
  else if decide (e = "much_worse") then -2
  else 0.

Section metrics.
Context `{JSNumber}.

(** A number used as a condition: 0 and [NaN] count as false. *)
Definition truthy (x : num) : bool := (x <= x)%js && negb (js_eq x (of_int 0)).

(** [arr.length ? arr.reduce((a, b) => a + b, 0) / arr.length : 0] *)
Definition mean (arr : list num) : num :=
  if (length arr =? 0)%nat then of_int 0
  else (foldl js_add (of_int 0) arr / of_nat (length arr))%js.

(** The pairs the loops over the decisions visit: each decision that has
    a review, with the review [reviewByDecision] holds for it. *)
Definition reviewed (decisions : list Decision) (reviews : list Review)
  : list (Decision * Review) :=
  omap (λ d, pair d <$> reviewMap reviews !! String_of_id (d_id d)) decisions.

(** Calibration error using decision confidence as a probability proxy. *)
Definition calibrationErrorFromConfidence (decisions : list Decision)
    (reviews : list Review) : num :=
  let pairs :=
    (λ '(d, r),
       let p := (of_int (confidence d) / of_int 100)%js in
       let outcome :=
         if bool_decide (expectation_comparison r
                         ∈ ["much_better"; "slightly_better"; "as_expected"])
         then of_int 1 else of_int 0 in
       (p, outcome)) <$> reviewed decisions reviews in
  if (length pairs =? 0)%nat then of_int 0
  else
    (* mean absolute error *)
    let errors := (λ '(p, outcome), Math_abs (p - outcome)%js) <$> pairs in
    mean errors.

Definition importanceWeight (imp : string) : num :=
  if decide (imp = "high") then of_int 3
  else if decide (imp = "medium") then of_int 2
  else of_int 1.

(** One turn of the loop of [riskAdjustedRepeatRate], on the two sums
    [weightedYes] and [totalWeight]. *)
Definition risk_step (sums : num * num) (pair : Decision * Review) : num * num :=
  let '(weightedYes, totalWeight) := sums in
  let '(d, r) := pair in
  let w := importanceWeight (importance d) in
  let totalWeight := (totalWeight + w)%js in
  let surprisePenalty := (of_int 1 - of_int (surprise_score r) / of_int 100)%js in
  if decide (would_repeat r = Some "yes")
  then ((weightedYes + w * surprisePenalty)%js, totalWeight)
  else (weightedYes, totalWeight).

(** Risk-adjusted repeat rate: weight 'yes' answers by importance and
    downweight by surprise *)
Definition riskAdjustedRepeatRate (decisions : list Decision) (reviews : list Review)
  : num :=
  let '(weightedYes, totalWeight) :=
    foldl risk_step (of_int 0, of_int 0) (reviewed decisions reviews) in
  if truthy totalWeight
  then Math_round ((weightedYes / totalWeight) * of_int 100)%js
  else of_int 0.

(** Outcome ROI: average numeric mapping of expectation comparison for a
    cohort *)
Definition outcomeROI (reviews : list Review) : num :=
  mean ((λ r, of_int (expectationToNumeric (expectation_comparison r))) <$> reviews).

End metrics.

End metrics.
(** ** The repositories (lib/db/repositories) *)

(** A row of the decisions table: the fields the engine reads, and the
    review date as its time value in milliseconds. *)
Record StoredDecision := { stored : Decision; review_date : Z }.

(** [DecisionRepository.getDueForReview] after its two reads of the
    database: [dueDecisions] are the rows the query on the review date
    returned, [reviews] the rows of the reviews table. *)
Definition getDueForReview (dueDecisions : list StoredDecision)
    (reviews : list Review) : list StoredDecision :=
  let reviewedDecisionIds : gset string := list_to_set (decision_id <$> reviews) in
  js_sort (λ a b, review_date a - review_date b >? 0)
    (filter (λ d, String_of_id (d_id (stored d)) ∉ reviewedDecisionIds) dueDecisions).


(** ** Notions of the specification *)

(** A decision has a matching review when some review carries its id. *)
Definition has_review (reviews : list Review) (d : Decision) : Prop :=
  Exists (λ r, decision_id r = String_of_id (d_id d)) reviews.

#[global] Instance has_review_dec reviews d : base.Decision (has_review reviews d).
Proof. unfold has_review. apply _. Defined.

(** A card list holds a card with the given id. *)
Definition has_card `{JSNumber} (cs : list InsightCard) (i : string) : Prop :=
  ∃ c, c ∈ cs ∧ card_id c = i.

(** The difference of the means of a metric over two windows, before any
    rounding. *)
Definition mean_delta `{JSNumber} (tail prev : list DerivedDecision)
    (fn : DerivedDecision → num) : num :=
  (avg tail fn - avg prev fn)%js.

(** The card of a trend, as a function of the delta it reports. *)
Definition trend_card_of `{JSNumber} (name metric : string) (lastN : nat)
    (delta strong_above : num) : InsightCard :=
  {| card_id := "trend-" +:+ name;
     tags := ["trend"; name];
     strength := if (Math_abs delta > strong_above)%js then strong else medium;
     evidence := [ {| ev_n := lastN; ev_metric := metric; ev_value := delta;
                      ev_baseline := None; ev_lift := None |} ] |}.

(** *** Rational values and the roundings the specification names *)

(** The value of a finite number of [Exact]. *)
Definition qval (x : option Q) : Q := default 0%Q x.

Definition Qsum (l : list Q) : Q := foldr Qplus 0%Q l.

(** The arithmetic mean. *)
Definition Qmean (l : list Q) : Q := (Qsum l / inject_Z (Z.of_nat (length l)))%Q.

(** Rounding to 2 decimal places, a half going up (towards +∞). *)
Definition half_up_2dp (q : Q) : Q :=
  (inject_Z (Qfloor (q * 100 + (1 # 2))) / 100)%Q.


(** An [expectation_comparison] value that is not the name of a member
    inherited from [Object.prototype]. *)
Definition plain_key (key : string) : Prop := key ∉ Object_prototype_names.

#[global] Instance plain_key_dec key : base.Decision (plain_key key).
Proof. unfold plain_key. apply _. Defined.

(** A derived record of [Exact] whose computed fields are finite numbers. *)
Definition finite_pair (d : @DerivedDecision Exact.number) : Prop :=
  is_Some (outcomeScore d) ∧ is_Some (calibrationError d).

(** ** Concrete inputs *)

Definition decision_of (i : string) (conf : Z) (type imp spd : string) : Decision :=
  {| d_id := Some i; confidence := conf; decision_type := type;
     importance := imp; decision_speed := spd |}.

Definition review_of (i comparison : string) (surprise : Z) (repeat : string)
    (time : Z) : Review :=
  {| decision_id := i; expectation_comparison := comparison;
     surprise_score := surprise; would_repeat := Some repeat; reviewed_at := time |}.

(** Eight reviewed decisions, one of them slightly better than expected and
    seven as expected: the mean outcome score is 1/8 = 0.125. *)
Definition eighth_decisions : list Decision :=
  (λ i, decision_of i 50 "work" "high" "quick")
    <$> ["1"; "2"; "3"; "4"; "5"; "6"; "7"; "8"].

Definition eighth_reviews : list Review :=
  [ review_of "1" "slightly_better" 10 "yes" 1;
    review_of "2" "as_expected" 10 "yes" 2;
    review_of "3" "as_expected" 10 "yes" 3;
    review_of "4" "as_expected" 10 "yes" 4;
    review_of "5" "as_expected" 10 "yes" 5;
    review_of "6" "as_expected" 10 "yes" 6;
    review_of "7" "as_expected" 10 "yes" 7;
    review_of "8" "as_expected" 10 "yes" 8 ].

(** ** The quantities of the segment miner, as rational numbers *)

Section exact_notions.
#[local] Existing Instance Exact.number.


Definition mean_surprise (seg : list DerivedDecision) : Q :=
  Qmean ((λ d, inject_Z (surprise_score (review d))) <$> seg).








(** A baseline whose averages are finite numbers. *)
Definition finite_baseline (b : Baseline) : Prop :=
  is_Some (avgOutcomeScore b) ∧ is_Some (avgSurprise b)
  ∧ is_Some (avgCalibrationError b).

End exact_notions.




(** Five quick, important work decisions taken with confidence 90 that
    would not be repeated, and three personal decisions; all eight turned
    out much worse than expected, with no surprise. *)
Definition uniform_decisions : list Decision :=
  ((λ i, decision_of i 90 "work" "high" "quick") <$> ["1"; "2"; "3"; "4"; "5"])
  ++ ((λ i, decision_of i 90 "personal" "low" "slow") <$> ["6"; "7"; "8"]).

Definition uniform_reviews : list Review :=
  [ review_of "1" "much_worse" 0 "no" 1;
    review_of "2" "much_worse" 0 "no" 2;
    review_of "3" "much_worse" 0 "no" 3;
    review_of "4" "much_worse" 0 "no" 4;
    review_of "5" "much_worse" 0 "no" 5;
    review_of "6" "much_worse" 0 "yes" 6;
    review_of "7" "much_worse" 0 "yes" 7;
    review_of "8" "much_worse" 0 "yes" 8 ].

(** Six decisions of one segment, two of them slightly better than
    expected (mean outcome 1/3), and two other decisions as expected. *)
Definition third_decisions : list Decision :=
  ((λ i, decision_of i 90 "work" "high" "quick") <$> ["1"; "2"; "3"; "4"; "5"; "6"])
  ++ ((λ i, decision_of i 50 "personal" "low" "slow") <$> ["7"; "8"]).

Definition third_reviews : list Review :=
  [ review_of "1" "slightly_better" 10 "no" 1;
    review_of "2" "slightly_better" 10 "no" 2;
    review_of "3" "as_expected" 10 "no" 3;
    review_of "4" "as_expected" 10 "no" 4;
    review_of "5" "as_expected" 10 "no" 5;
    review_of "6" "as_expected" 10 "no" 6;
    review_of "7" "as_expected" 10 "yes" 7;
    review_of "8" "as_expected" 10 "yes" 8 ].

(** Eighteen reviewed decisions in review order.  The first sixteen are
    taken with confidence 50 and turn out as expected (calibration error
    0); the last two have calibration errors 0.9 and 0.2, so that the mean
    calibration error of the last nine exceeds that of the nine before by
    1.1/9 = 0.1222... *)
Definition drift_ids : list string :=
  ["01"; "02"; "03"; "04"; "05"; "06"; "07"; "08"; "09"; "10"; "11"; "12"; "13";
   "14"; "15"; "16"].

Definition drift_decisions : list Decision :=
  ((λ i, decision_of i 50 "work" "high" "quick") <$> drift_ids)
  ++ [decision_of "17" 90 "work" "high" "quick";
      decision_of "18" 30 "work" "high" "quick"].

Definition drift_reviews : list Review :=
  imap (λ k i, review_of i "as_expected" 10 "yes" (Z.of_nat k + 1)) drift_ids
  ++ [review_of "17" "slightly_worse" 10 "yes" 17;
      review_of "18" "as_expected" 10 "yes" 18].

(** Twelve reviewed decisions, the sixth and the seventh reviewed at the
    same time, given in two orders. *)
Definition tied_head : list Decision :=
  (λ i, decision_of i 50 "work" "high" "quick") <$> ["01"; "02"; "03"; "04"; "05"].
Definition tied_sixth : Decision := decision_of "06" 50 "work" "high" "quick".
Definition tied_seventh : Decision := decision_of "07" 50 "work" "high" "quick".
Definition tied_tail : list Decision :=
  (λ i, decision_of i 50 "work" "high" "quick") <$> ["08"; "09"; "10"; "11"; "12"].

Definition tied_decisions : list Decision :=
  tied_head ++ [tied_sixth; tied_seventh] ++ tied_tail.
Definition tied_decisions_swapped : list Decision :=
  tied_head ++ [tied_seventh; tied_sixth] ++ tied_tail.

Definition tied_reviews : list Review :=
  [ review_of "01" "as_expected" 0 "yes" 1;
    review_of "02" "as_expected" 0 "yes" 2;
    review_of "03" "as_expected" 0 "yes" 3;
    review_of "04" "as_expected" 0 "yes" 4;
    review_of "05" "as_expected" 0 "yes" 5;
    review_of "06" "as_expected" 0 "yes" 6;
    review_of "07" "as_expected" 100 "yes" 6;
    review_of "08" "as_expected" 0 "yes" 8;
    review_of "09" "as_expected" 0 "yes" 9;
    review_of "10" "as_expected" 0 "yes" 10;
    review_of "11" "as_expected" 0 "yes" 11;
    review_of "12" "as_expected" 0 "yes" 12 ].

(** One reviewed decision whose review carries, as its outcome, the name
    of a member every object inherits. *)
Definition inherited_decisions : list Decision :=
  [decision_of "1" 50 "work" "high" "quick"].
Definition inherited_reviews : list Review :=
  [review_of "1" "constructor" 10 "yes" 1].

(** A result of [Exact] in which every number is finite: no NaN and no
    infinity was produced on the way. *)
Definition finite_evidence (e : @InsightEvidence Exact.number) : Prop :=
  is_Some (ev_value e)
  ∧ match ev_baseline e with Some b => is_Some b | None => True end
  ∧ match ev_lift e with Some l => is_Some l | None => True end.

Definition finite_insights (r : @Insights Exact.number) : Prop :=
  finite_baseline (baseline r)
  ∧ Forall (λ card, Forall finite_evidence (evidence card)) (cards r).


(** One decision with two reviews, given in two orders. *)
Definition twice_reviewed : list Decision :=
  [decision_of "1" 50 "work" "high" "quick"].
Definition two_reviews : list Review :=
  [review_of "1" "as_expected" 10 "yes" 1; review_of "1" "as_expected" 20 "yes" 2].

(** Twenty-four reviewed decisions in review order; the surprise score is
    30 for the first fourteen and 50 for the last ten. *)
Definition rising_ids : list string :=
  drift_ids ++ ["17"; "18"; "19"; "20"; "21"; "22"; "23"; "24"].

Definition rising_decisions : list Decision :=
  (λ i, decision_of i 50 "work" "high" "quick") <$> rising_ids.

Definition rising_reviews : list Review :=
  imap (λ k i, review_of i "as_expected" (if decide (14 ≤ k)%nat then 50 else 30)
                 "yes" (Z.of_nat k + 1)) rising_ids.

(** ** Notions of the legacy summaries *)

(** How a review's outcome compares with the expectation, as the
    probability proxy sees it: [worse] stands for proxy 0, [neutral] for
    0.5 and [better] for 1.  A value outside the enumeration is neutral,
    unless it names a member inherited from [Object.prototype]: the score
    is then not a number, which the proxy sends to 0. *)
Inductive Outcome := worse | neutral | better.

Definition outcome_of (comparison : string) : Outcome :=
  if bool_decide (comparison ∈ ["slightly_better"; "much_better"]) then better
  else if bool_decide (comparison ∈ ["much_worse"; "slightly_worse"]
                                    ++ Object_prototype_names)
  then worse
  else neutral.

(** The verdict on a pair by confidence band and outcome. *)
Definition calibration_of (b : ConfBand) (o : Outcome) : Calibration :=
  match o, b with
  | worse, _ => overconfident
  | neutral, low => underconfident
  | neutral, mid => well_calibrated
  | neutral, (high | very_high) => overconfident
  | better, very_high => well_calibrated
  | better, _ => underconfident
  end.

(** The verdict on a derived record, from the confidence of its decision
    and the outcome of its review. *)
Definition verdict `{JSNumber} (d : DerivedDecision) : Calibration :=
  calibration_of (confBand (confidence (decision d)))
                 (outcome_of (expectation_comparison (review d))).

(** The three counts of the confidence summary, read off the inputs. *)
Definition confidence_counts_by_verdict `{JSNumber}
    (ds : list Decision) (rs : list Review) : Prop :=
  let derived := derive ds rs in
  let c := confidenceInsight derived in
  let count v := length (filter (λ d, verdict d = v) derived) in
  wellCalibratedCount c = count well_calibrated
  ∧ overconfidentCount c = count overconfident
  ∧ underconfidentCount c = count underconfident
  ∧ (wellCalibratedCount c + overconfidentCount c + underconfidentCount c
     = length derived)%nat.

(** [k] out of [n] as a percentage, rounded to a whole number, a half
    going up: the integer part of [100 k / n + 1/2].  None out of none
    is 0. *)
Definition percent (k n : nat) : Z :=
  if (n =? 0)%nat then 0
  else (200 * Z.of_nat k + Z.of_nat n) / (2 * Z.of_nat n).

(** The records of one speed, and the records that would not be repeated. *)
Definition of_speed `{JSNumber} (spd : string) (l : list DerivedDecision)
  : list DerivedDecision :=
  filter (λ d, decision_speed (decision d) = spd) l.

Definition regretted `{JSNumber} (l : list DerivedDecision) : list DerivedDecision :=
  filter (λ d, would_repeat (review d) = Some "no") l.

(** The records of one domain (decision type). *)
Definition of_domain `{JSNumber} (k : string) (l : list DerivedDecision)
  : list DerivedDecision :=
  filter (λ d, decision_type (decision d) = k) l.

(** A bucket after the records of [l] have been counted into it. *)
Definition counted `{JSNumber} (b : Bucket) (l : list DerivedDecision) : Bucket :=
  {| b_n := b_n b + length l; b_regret := b_regret b + length (regretted l) |}.

(** Three reviewed decisions whose speeds are not of the enumeration: the
    first is [__proto__], the second [n]. *)
Definition polluting_decisions : list Decision :=
  [ decision_of "1" 50 "work" "high" "__proto__";
    decision_of "2" 50 "work" "high" "n";
    decision_of "3" 50 "work" "high" "quick" ].

Definition polluting_reviews : list Review :=
  [ review_of "1" "as_expected" 10 "yes" 1;
    review_of "2" "as_expected" 10 "yes" 2;
    review_of "3" "as_expected" 10 "yes" 3 ].

(** The strings of [l] in the order in which they are first seen. *)
Definition first_seen (l : list string) : list string :=
  foldl (λ acc k, if decide (k ∈ acc) then acc else acc ++ [k]) [] l.

(** The entry of the domain [k] in [domainMap] after the records of [l]:
    the number of the records of that domain and the sum of their surprise
    scores. *)
Definition domain_entry `{JSNumber} (l : list DerivedDecision) (k : string)
  : string * DomainTotal :=
  (k, {| dom_n := length (of_domain k l);
         dom_tot := sum_by (λ d, of_int (surprise_score (review d))) (of_domain k l) |}).

(** The average the second loop computes from an entry. *)
Definition entry_av `{JSNumber} (entry : string * DomainTotal) : num :=
  (dom_tot entry.2 / of_nat (dom_n entry.2))%js.

Section exact_domains.
#[local] Existing Instance Exact.number.

(** [d] is the first record of the domain [k], every domain seen before
    it has a lower mean surprise score than [k], and no domain has a
    higher one. *)
Definition first_highest (derived : list DerivedDecision) (k : string) : Prop :=
  let mean k := mean_surprise (of_domain k derived) in
  ∃ l1 d l2,
    derived = l1 ++ d :: l2 ∧ decision_type (decision d) = k
    ∧ (∀ x, x ∈ l1 → (mean (decision_type (decision x)) < mean k)%Q)
    ∧ (∀ x, x ∈ l2 → (mean (decision_type (decision x)) <= mean k)%Q).

(** The same for the lowest mean surprise score. *)
Definition first_lowest (derived : list DerivedDecision) (k : string) : Prop :=
  let mean k := mean_surprise (of_domain k derived) in
  ∃ l1 d l2,
    derived = l1 ++ d :: l2 ∧ decision_type (decision d) = k
    ∧ (∀ x, x ∈ l1 → (mean k < mean (decision_type (decision x)))%Q)
    ∧ (∀ x, x ∈ l2 → (mean k <= mean (decision_type (decision x)))%Q).

End exact_domains.

(** Four reviewed decisions of three domains: the mean surprise score is
    10 for work and 30 both for health and for finance. *)
Definition domain_decisions : list Decision :=
  [ decision_of "1" 50 "work" "high" "quick";
    decision_of "2" 50 "health" "high" "quick";
    decision_of "3" 50 "finance" "high" "quick";
    decision_of "4" 50 "work" "high" "quick" ].

Definition domain_reviews : list Review :=
  [ review_of "1" "as_expected" 0 "yes" 1;
    review_of "2" "as_expected" 30 "yes" 2;
    review_of "3" "as_expected" 30 "yes" 3;
    review_of "4" "as_expected" 20 "yes" 4 ].

Section exact_strength.
#[local] Existing Instance Exact.number.



End exact_strength.

(** One decision with two reviews, listed newest first. *)
Definition twice_decisions : list Decision :=
  [ {| d_id := Some "1"; confidence := 70; decision_type := "work";
       importance := "medium"; decision_speed := "quick" |} ].

Definition twice_reviews : list Review :=
  [ {| decision_id := "1"; expectation_comparison := "much_better";
       surprise_score := 10; would_repeat := Some "yes"; reviewed_at := 2000 |};
    {| decision_id := "1"; expectation_comparison := "much_worse";
       surprise_score := 90; would_repeat := Some "no"; reviewed_at := 1000 |} ].

(** * Properties *)

(** ** Double precision at work *)

(** [0.1 + 0.2] is above [0.3]. *)
Example double_sum_inexact :
  (@of_ratio Binary64.number 3 10 < of_ratio 1 10 + of_ratio 2 10)%js = true.
Proof. vm_compute. reflexivity. Qed.

(** [Math.round] sends a half towards +∞: 2.5 to 3, -2.5 to -2, and 12.5
    to 13. *)
Example double_round_half :
  Math_round (@of_ratio Binary64.number 25 10) = of_int 3
  ∧ Math_round (@of_ratio Binary64.number (-25) 10) = of_int (-2)
  ∧ Math_round (@of_ratio Binary64.number 125 10) = of_int 13.
Proof. vm_compute. repeat split. Qed.

(** [Math.round(-0.2)] is [-0], and [Math.round] of the largest double
    below 0.5 is 0, although adding 0.5 to it gives 1. *)
Example double_round_small :
  Math_round (@of_ratio Binary64.number (-2) 10) = S754_zero true
  ∧ Binary64.round (S754_finite false 9007199254740991 (-54)) = S754_zero false
  ∧ SFadd Binary64.prec Binary64.emax (S754_finite false 9007199254740991 (-54))
          (@of_ratio Binary64.number 5 10)
    = @of_int Binary64.number 1.
Proof. vm_compute. repeat split. Qed.

(** [round(1.005)] is 1 on doubles, where [1.005 * 100] is
    100.49999999999999, and 1.01 on exact numbers. *)
Example round_1005 :
  @round Binary64.number (of_ratio 1005 1000) = of_int 1
  ∧ @round Exact.number (of_ratio 1005 1000) = of_ratio 101 100.
Proof. vm_compute. repeat split. Qed.
(** ** Arrays: sorting and slicing *)

Section js_sort_facts.
Context {A : Type} (after : A → A → bool).

Lemma sort_insert_Permutation x l : sort_insert after x l ≡ₚ x :: l.
Proof.
  induction l as [|y l IH]; simpl; [done|].
  destruct (after x y); [|done].
  rewrite IH. apply Permutation_swap.
Qed.

Lemma js_sort_Permutation l : js_sort after l ≡ₚ l.
Proof.
  induction l as [|x l IH]; simpl; [done|].
  rewrite sort_insert_Permutation. by f_equiv.
Qed.

Lemma js_sort_length l : length (js_sort after l) = length l.
Proof. by rewrite js_sort_Permutation. Qed.

Lemma js_sort_elem_of x l : x ∈ js_sort after l ↔ x ∈ l.
Proof. by rewrite js_sort_Permutation. Qed.

(** A comparator that is consistent on the elements of the array sorts
    it: [R a b] reads "[a] may stand before [b]". *)
Lemma sort_insert_StronglySorted (R : relation A) x l :
  (∀ b, b ∈ l → after x b = false → R x b) →
  (∀ b, b ∈ l → after x b = true → R b x) →
  (∀ b c, b ∈ l → c ∈ l → R x b → R b c → R x c) →
  StronglySorted R l → StronglySorted R (sort_insert after x l).
Proof.
  intros Hfalse Htrue Htrans Hl.
  induction Hl as [|y l Hl IH Hy]; simpl.
  { repeat constructor. }
  destruct (after x y) eqn:Hxy.
  - constructor.
    + apply IH.
      * intros b Hb ?. apply Hfalse; [by right|done].
      * intros b Hb ?. apply Htrue; [by right|done].
      * intros b c Hb Hc. apply Htrans; by right.
    + rewrite sort_insert_Permutation. constructor; [|done].
      apply Htrue; [left|done].
  - assert (R x y) by (apply Hfalse; [left|done]).
    constructor; [by constructor|].
    constructor; [done|].
    rewrite Forall_forall in Hy |- *. intros z Hz.
    eapply (Htrans y z); eauto using list_elem_of_further, list_elem_of_here.
Qed.

Lemma js_sort_StronglySorted (R : relation A) l :
  (∀ a b, a ∈ l → b ∈ l → after a b = false → R a b) →
  (∀ a b, a ∈ l → b ∈ l → after a b = true → R b a) →
  (∀ a b c, a ∈ l → b ∈ l → c ∈ l → R a b → R b c → R a c) →
  StronglySorted R (js_sort after l).
Proof.
  intros Hfalse Htrue Htrans.
  induction l as [|x l IH]; simpl; [constructor|].
  apply sort_insert_StronglySorted.
  - intros b Hb ?. rewrite js_sort_elem_of in Hb.
    apply Hfalse; [left|by right|done].
  - intros b Hb ?. rewrite js_sort_elem_of in Hb.
    apply Htrue; [left|by right|done].
  - intros b c Hb Hc. rewrite js_sort_elem_of in Hb, Hc.
    apply Htrans; by constructor.
  - apply IH.
    + intros a b Ha Hb ?. apply Hfalse; [by right..|done].
    + intros a b Ha Hb ?. apply Htrue; [by right..|done].
    + intros a b c Ha Hb Hc. apply Htrans; by right.
Qed.

End js_sort_facts.

(** Sorting integers by [(a, b) => a - b], and records by an integer key. *)
Lemma js_sort_by_key_sorted {A} (key : A → Z) (l : list A) :
  StronglySorted (λ a b, key a ≤ key b)
                 (js_sort (λ a b, key a - key b >? 0) l).
Proof.
  apply js_sort_StronglySorted; intros; lia.
Qed.

Lemma NoDup_fmap_elem_inj {A B} (f : A → B) (l : list A) a b :
  NoDup (f <$> l) → a ∈ l → b ∈ l → f a = f b → a = b.
Proof.
  induction l as [|x l IH]; csimpl; [by inv 2|].
  rewrite NoDup_cons, list_elem_of_fmap.
  intros [Hx Hnd] Ha Hb Hab. inv Ha; inv Hb; [done| | |by apply IH].
  - destruct Hx. by exists b.
  - destruct Hx. by exists a.
Qed.

(** With pairwise distinct keys the sorted array does not depend on the
    order of the input. *)
Lemma js_sort_by_key_unique {A} (key : A → Z) (l1 l2 : list A) :
  NoDup (key <$> l1) → l1 ≡ₚ l2 →
  js_sort (λ a b, key a - key b >? 0) l1 = js_sort (λ a b, key a - key b >? 0) l2.
Proof.
  intros Hnd Hp.
  apply (StronglySorted_unique_strong (λ a b, key a ≤ key b)).
  - intros x1 x2 Hx1 Hx2 H12 H21.
    apply js_sort_elem_of in Hx1, Hx2. rewrite <- Hp in Hx2.
    apply (NoDup_fmap_elem_inj key l1); [done..|lia].
  - apply js_sort_by_key_sorted.
  - apply js_sort_by_key_sorted.
  - by rewrite !js_sort_Permutation.
Qed.

Lemma Forall_filter {A} (P Q : A → Prop) `{!∀ x, base.Decision (Q x)} (l : list A) :
  Forall P l → Forall P (filter Q l).
Proof.
  rewrite !Forall_forall. intros Hl x [_ Hx]%list_elem_of_filter. by apply Hl.
Qed.

Lemma slice_from_neg {A} (l : list A) (k : nat) :
  (0 < k ≤ length l)%nat →
  slice_from l (- Z.of_nat k) = drop (length l - k) l.
Proof.
  intros Hk. unfold slice_from, slice_index.
  destruct (Z.ltb_spec (- Z.of_nat k) 0); [|lia].
  f_equal. lia.
Qed.

Lemma slice_neg_neg {A} (l : list A) (k : nat) :
  (0 < k ∧ 2 * k ≤ length l)%nat →
  slice l (- Z.of_nat k * 2) (- Z.of_nat k) = take k (drop (length l - 2 * k) l).
Proof.
  intros Hk. unfold slice, slice_index.
  destruct (Z.ltb_spec (- Z.of_nat k * 2) 0); [|lia].
  destruct (Z.ltb_spec (- Z.of_nat k) 0); [|lia].
  f_equal; [|f_equal]; lia.
Qed.

Lemma slice_0 {A} (l : list A) (k : nat) :
  slice l 0 (Z.of_nat k) = take k l.
Proof.
  unfold slice, slice_index. simpl.
  rewrite Nat2Z.id, Nat.sub_0_r, drop_0.
  destruct (Z.ltb_spec (Z.of_nat k) 0); [lia|].
  destruct (Nat.min_spec k (length l)) as [[? ->]|[? ->]]; [done|].
  by rewrite !take_ge by lia.
Qed.

(** ** The record deriver *)

Section derive_facts.
Context `{JSNumber}.

Lemma reviewMap_snoc rs r :
  reviewMap (rs ++ [r]) = <[decision_id r := r]> (reviewMap rs).
Proof. unfold reviewMap. by rewrite foldl_app. Qed.

Lemma reviewMap_lookup_Some rs k r :
  reviewMap rs !! k = Some r → r ∈ rs ∧ decision_id r = k.
Proof.
  induction rs as [|r' rs IH] using rev_ind; [done|].
  rewrite reviewMap_snoc, lookup_insert, elem_of_app, list_elem_of_singleton.
  case_decide; [|tauto]. intros [= <-]. tauto.
Qed.

Lemma reviewMap_lookup_is_Some rs k :
  is_Some (reviewMap rs !! k) ↔ Exists (λ r, decision_id r = k) rs.
Proof.
  induction rs as [|r' rs IH] using rev_ind.
  { unfold reviewMap; simpl. rewrite lookup_empty, Exists_nil.
    split; [by intros []|done]. }
  rewrite reviewMap_snoc, lookup_insert, Exists_app, Exists_cons, Exists_nil.
  case_decide; [|rewrite IH; tauto].
  split; [tauto|eauto].
Qed.

(** When no two reviews are of the same decision, every review is the one
    the map holds for its decision. *)
Lemma reviewMap_lookup_NoDup rs r :
  NoDup (decision_id <$> rs) → r ∈ rs → reviewMap rs !! decision_id r = Some r.
Proof.
  induction rs as [|r' rs IH] using rev_ind; [by inv 2|].
  rewrite fmap_app, NoDup_app, reviewMap_snoc, lookup_insert, elem_of_app.
  intros (Hnd & Hr' & _) [Hr|Hr].
  - case_decide as Heq; [|by apply IH].
    destruct (Hr' (decision_id r')); [|set_solver].
    rewrite Heq. by apply list_elem_of_fmap_2.
  - apply list_elem_of_singleton in Hr as ->. by rewrite decide_True.
Qed.

Lemma reviewMap_Permutation rs rs' :
  NoDup (decision_id <$> rs) → rs ≡ₚ rs' → reviewMap rs = reviewMap rs'.
Proof.
  intros Hnd Hp. apply map_eq. intros k.
  assert (NoDup (decision_id <$> rs')) as Hnd' by by rewrite <- Hp.
  destruct (reviewMap rs !! k) as [r|] eqn:Hk.
  - apply reviewMap_lookup_Some in Hk as [Hr <-].
    symmetry. apply reviewMap_lookup_NoDup; [done|by rewrite <- Hp].
  - destruct (reviewMap rs' !! k) as [r|] eqn:Hk'; [|done].
    apply reviewMap_lookup_Some in Hk' as [Hr <-].
    rewrite reviewMap_lookup_NoDup in Hk; [done..|by rewrite Hp].
Qed.

Lemma derive_pairs_length ds rs :
  length (derive_pairs ds rs) = length (filter (has_review rs) ds).
Proof.
  unfold derive_pairs. induction ds as [|d ds IH]; [done|].
  rewrite filter_cons. csimpl.
  pose proof (reviewMap_lookup_is_Some rs (String_of_id (d_id d))) as Hd.
  destruct (reviewMap rs !! String_of_id (d_id d)) as [r|]; simpl.
  - rewrite decide_True by (apply Hd; eauto). simpl. by rewrite IH.
  - rewrite decide_False; [done|]. intros Hex%Hd. by destruct Hex.
Qed.

Lemma derive_length ds rs :
  length (derive ds rs) = length (filter (has_review rs) ds).
Proof. unfold derive. by rewrite js_sort_length, derive_pairs_length. Qed.

Lemma derive_Permutation ds rs : derive ds rs ≡ₚ derive_pairs ds rs.
Proof. apply js_sort_Permutation. Qed.

(** Every derived record is [derive_one] of a decision and of a review of
    the input carrying its id. *)
Lemma derive_elem_of ds rs x :
  x ∈ derive ds rs →
  ∃ d r, d ∈ ds ∧ r ∈ rs ∧ decision_id r = String_of_id (d_id d) ∧ x = derive_one d r.
Proof.
  rewrite derive_Permutation. unfold derive_pairs.
  rewrite list_elem_of_omap. intros (d & Hd & Hx).
  destruct (reviewMap rs !! String_of_id (d_id d)) as [r|] eqn:Hr; [|done].
  apply reviewMap_lookup_Some in Hr as [??]. simplify_eq/=. eauto 10.
Qed.

Lemma derive_sorted ds rs :
  StronglySorted (λ a b, reviewedAt a ≤ reviewedAt b) (derive ds rs).
Proof. apply js_sort_by_key_sorted. Qed.

(** The derived records do not depend on the order of the input when every
    decision has at most one review and no two derived records were
    reviewed at the same time. *)
Lemma derive_order_independent ds ds' rs rs' :
  ds ≡ₚ ds' → rs ≡ₚ rs' →
  NoDup (decision_id <$> rs) →
  NoDup (reviewedAt <$> derive ds rs) →
  derive ds rs = derive ds' rs'.
Proof.
  intros Hds Hrs Hnd Hts. unfold derive.
  apply js_sort_by_key_unique.
  - by rewrite <- (derive_Permutation ds rs).
  - unfold derive_pairs. rewrite (reviewMap_Permutation rs rs') by done.
    by rewrite Hds.
Qed.

End derive_facts.

(** ** Gating and assembly *)

Section assembly.
Context `{JSNumber}.

Lemma computeBaselines_reviewCount derived :
  reviewCount (computeBaselines derived) = length derived.
Proof. unfold computeBaselines. by case_decide. Qed.

Lemma generateInsights_reviewCount ds rs :
  ins_reviewCount (generateInsights ds rs) = length (derive ds rs).
Proof. done. Qed.

Lemma generateInsights_baseline ds rs :
  baseline (generateInsights ds rs) = computeBaselines (derive ds rs).
Proof. done. Qed.

Lemma generateInsights_cards ds rs :
  let derived := derive ds rs in
  let n := length derived in
  cards (generateInsights ds rs) =
    (if decide (3 ≤ n)%nat then [confCard derived (computeBaselines derived)] else [])
    ++ (if decide (8 ≤ n)%nat then mineSegments derived (computeBaselines derived) else [])
    ++ (if decide (12 ≤ n)%nat then analyzeTrends derived else []).
Proof.
  intros derived n. unfold generateInsights. cbn [cards]. fold derived. fold n.
  unfold GATING_THRESHOLDS.baselineCard, GATING_THRESHOLDS.segments,
    GATING_THRESHOLDS.trends.
  destruct (Nat.leb_spec 3 n), (Nat.ltb_spec 0 n), (Nat.leb_spec 8 n),
    (Nat.leb_spec 12 n); repeat case_decide; simpl; done || lia.
Qed.

End assembly.

(** C3. The baseline's review count is the number of input decisions that
    have a matching review, it never exceeds the number of decisions, and
    when it is 0 the three averages of the baseline are 0. *)
Theorem baseline_review_count `{JSNumber} (ds : list Decision) (rs : list Review) :
  let b := baseline (generateInsights ds rs) in
  reviewCount b = length (filter (has_review rs) ds)
  ∧ (reviewCount b ≤ length ds)%nat
  ∧ (reviewCount b = 0%nat →
       avgOutcomeScore b = of_int 0 ∧ avgSurprise b = of_int 0
       ∧ avgCalibrationError b = of_int 0).
Proof.
  intros b. subst b.
  rewrite generateInsights_baseline, computeBaselines_reviewCount, derive_length.
  split_and!; [done|apply length_filter|].
  rewrite <- derive_length. intros Hn. unfold computeBaselines.
  by rewrite decide_True.
Qed.

(** C4. The card list is empty whenever fewer than 3 pairs were derived. *)
Theorem cards_empty_below_three `{JSNumber} (ds : list Decision) (rs : list Review) :
  (ins_reviewCount (generateInsights ds rs) < 3)%nat →
  cards (generateInsights ds rs) = [].
Proof.
  rewrite generateInsights_reviewCount, generateInsights_cards. intros Hn.
  by rewrite !decide_False by lia.
Qed.

(** C10. With at least 3 derived pairs the card list starts with the
    calibration summary card, which is strong from 8 pairs on and medium
    below; and the card list is non-empty exactly when there are at least 3
    derived pairs. *)
Theorem calibration_summary_first `{JSNumber} (ds : list Decision) (rs : list Review) :
  let r := generateInsights ds rs in
  let n := ins_reviewCount r in
  ((3 ≤ n)%nat →
     ∃ c rest, cards r = c :: rest
       ∧ c = confCard (derive ds rs) (baseline r)
       ∧ card_id c = "calibration-summary"
       ∧ strength c = if decide (8 ≤ n)%nat then strong else medium)
  ∧ (cards r ≠ [] ↔ (3 ≤ n)%nat).
Proof.
  intros r n. subst r n.
  rewrite generateInsights_reviewCount, generateInsights_cards.
  rewrite generateInsights_baseline.
  set (derived := derive ds rs).
  split.
  - intros Hn. rewrite decide_True by done.
    eexists _, _. split_and!; [done..|].
    unfold confCard. cbn [strength].
    destruct (Nat.leb_spec 8 (length derived)); case_decide; done || lia.
  - case_decide as Hn; [done|].
    rewrite !decide_False by lia. simpl. split; [done|lia].
Qed.

(** C6, as amended.  Two inputs that are permutations of each other give
    the same result (baseline and cards, in the same order) when no two
    reviews are of the same decision and no two derived pairs have the same
    review time. *)
Theorem insights_order_independent `{JSNumber}
    (ds ds' : list Decision) (rs rs' : list Review) :
  ds ≡ₚ ds' → rs ≡ₚ rs' →
  NoDup (decision_id <$> rs) →
  NoDup (reviewedAt <$> derive ds rs) →
  baseline (generateInsights ds rs) = baseline (generateInsights ds' rs')
  ∧ cards (generateInsights ds rs) = cards (generateInsights ds' rs').
Proof.
  intros Hds Hrs Hnd Hts.
  assert (derive ds rs = derive ds' rs') as Heq
    by by apply derive_order_independent.
  unfold generateInsights. simpl. by rewrite Heq.
Qed.

(** ** The trend analyzer *)

Section trends.
Context `{JSNumber}.

Lemma trend_card_unfold name metric lastN delta threshold strong_above :
  trend_card name metric lastN delta threshold strong_above =
    if (Math_abs delta >= threshold)%js
    then [trend_card_of name metric lastN delta strong_above] else [].
Proof. reflexivity. Qed.

Lemma trend_card_elem name metric lastN delta threshold strong_above c :
  c ∈ trend_card name metric lastN delta threshold strong_above →
  c = trend_card_of name metric lastN delta strong_above.
Proof.
  rewrite trend_card_unfold. destruct (Math_abs delta >= threshold)%js.
  - by intros ->%list_elem_of_singleton.
  - by intros ?%not_elem_of_nil.
Qed.

Lemma trend_card_has name metric lastN delta threshold strong_above l1 l2 i :
  (∀ c, c ∈ l1 ++ l2 → card_id c ≠ i) → i = "trend-" +:+ name →
  has_card (l1 ++ trend_card name metric lastN delta threshold strong_above ++ l2) i
  ↔ (Math_abs delta >= threshold)%js = true.
Proof.
  intros Hne ->. rewrite trend_card_unfold. unfold has_card.
  destruct (Math_abs delta >= threshold)%js; split; try done.
  - intros _. exists (trend_card_of name metric lastN delta strong_above).
    split; [set_solver|done].
  - intros (c & Hc & Hid). simpl in Hc. by destruct (Hne c).
Qed.

Lemma analyzeTrends_unfold derived :
  let n := length derived in
  let window := Nat.min 10 (n / 2) in
  let tail := drop (n - window) derived in
  let prev := take window (drop (n - 2 * window) derived) in
  analyzeTrends derived =
    if decide (window < 1)%nat then []
    else
      trend_card "outcome" "outcomeDelta" window
        (round (mean_delta tail prev outcomeScore)) (of_ratio 5 10) (of_int 1)
      ++ trend_card "surprise" "surpriseDelta" window
        (round (mean_delta tail prev (λ d, of_int (surprise_score (review d)))))
        (of_int 8) (of_int 15)
      ++ trend_card "calibration" "calErrorDelta" window
        (round (mean_delta tail prev calibrationError))
        (of_ratio 5 100) (of_ratio 12 100).
Proof.
  intros n window tail prev. unfold analyzeTrends. fold n.
  assert (window = 0%nat ↔ n < 2)%nat as Hw.
  { unfold window. pose proof (Nat.div_mod_eq n 2).
    pose proof (Nat.mod_upper_bound n 2). lia. }
  destruct (Nat.ltb_spec n 2) as [Hn|Hn].
  { rewrite decide_True; [done|lia]. }
  fold window. destruct (Nat.ltb_spec window 1) as [?|Hw1]; [lia|].
  rewrite (decide_False (P := (window < 1)%nat)) by lia.
  assert (2 * window ≤ n)%nat as H2w.
  { unfold window. pose proof (Nat.div_mod_eq n 2). lia. }
  rewrite slice_from_neg, slice_neg_neg by (fold n; lia). fold n tail prev.
  rewrite decide_False; [done|].
  unfold prev. rewrite length_take, length_drop. fold n. lia.
Qed.

End trends.

Ltac trend_other_id :=
  match goal with
  | H : _ ∈ [] |- _ => by apply not_elem_of_nil in H
  | H : _ ∈ trend_card _ _ _ _ _ _ |- _ => by apply trend_card_elem in H as ->
  end.

(** C2, as amended.  With [window = min(10, floor(total/2))], no trend
    card is returned when [window < 1]; otherwise there are [2·window]
    pairs, and with delta the mean over the last [window] pairs minus the
    mean over the [window] pairs before them, rounded to 2 decimals, each
    trend card is emitted exactly when the absolute value of its delta
    reaches its threshold (0.5, 8, 0.05) and is strong when it exceeds its
    second threshold (1, 15, 0.12), medium otherwise; at most 3 cards, in
    the order outcome, surprise, calibration. *)
Theorem trend_cards_by_rounded_delta `{JSNumber} (derived : list DerivedDecision) :
  let n := length derived in
  let window := Nat.min 10 (n / 2) in
  let tail := drop (n - window) derived in
  let prev := take window (drop (n - 2 * window) derived) in
  let δo := round (mean_delta tail prev outcomeScore) in
  let δs := round (mean_delta tail prev (λ d, of_int (surprise_score (review d)))) in
  let δc := round (mean_delta tail prev calibrationError) in
  let cs := analyzeTrends derived in
  ((window < 1)%nat → cs = [])
  ∧ ((1 ≤ window)%nat →
       (2 * window ≤ n)%nat ∧ length tail = window ∧ length prev = window
       ∧ (has_card cs "trend-outcome" ↔ (Math_abs δo >= of_ratio 5 10)%js = true)
       ∧ (has_card cs "trend-surprise" ↔ (Math_abs δs >= of_int 8)%js = true)
       ∧ (has_card cs "trend-calibration" ↔ (Math_abs δc >= of_ratio 5 100)%js = true)
       ∧ cs =
           (if (Math_abs δo >= of_ratio 5 10)%js
            then [trend_card_of "outcome" "outcomeDelta" window δo (of_int 1)] else [])
           ++ (if (Math_abs δs >= of_int 8)%js
               then [trend_card_of "surprise" "surpriseDelta" window δs (of_int 15)]
               else [])
           ++ (if (Math_abs δc >= of_ratio 5 100)%js
               then [trend_card_of "calibration" "calErrorDelta" window δc
                       (of_ratio 12 100)]
               else []))
  ∧ (length cs ≤ 3)%nat.
Proof.
  intros n window tail prev δo δs δc cs.
  pose proof (analyzeTrends_unfold derived) as Hcs. cbv zeta in Hcs.
  fold n window tail prev δo δs δc cs in Hcs.
  split_and!.
  - intros Hw. by rewrite Hcs, decide_True.
  - intros Hw. rewrite decide_False in Hcs by lia.
    assert (2 * window ≤ n)%nat as H2w.
    { unfold window. pose proof (Nat.div_mod_eq n 2). lia. }
    split_and!.
    + done.
    + unfold tail. rewrite length_drop. fold n. lia.
    + unfold prev. rewrite length_take, length_drop. fold n. lia.
    + rewrite Hcs. apply (trend_card_has _ _ _ _ _ _ []); [|done].
      intros c [?|[? | ?]%elem_of_app]%elem_of_app; trend_other_id.
    + rewrite Hcs.
      apply (trend_card_has _ _ _ _ _ _ (trend_card "outcome" _ _ _ _ _)); [|done].
      intros c [?|?]%elem_of_app; trend_other_id.
    + rewrite Hcs. rewrite (assoc (++)).
      rewrite <- (right_id [] (++) (trend_card "calibration" _ _ _ _ _)).
      apply trend_card_has; [|done].
      intros c [[?|?]%elem_of_app|?]%elem_of_app; trend_other_id.
    + by rewrite Hcs.
  - rewrite Hcs, !trend_card_unfold.
    repeat case_match; simpl; lia.
Qed.

(** ** Exact arithmetic *)

Section exact_arithmetic.
#[local] Existing Instance Exact.number.

Lemma exact_add a b : (Some a + Some b)%js = Some (Qred (a + b)).
Proof. done. Qed.

Lemma exact_sub a b : (Some a - Some b)%js = Some (Qred (a - b)).
Proof. done. Qed.

Lemma exact_mul a b : (Some a * Some b)%js = Some (Qred (a * b)).
Proof. done. Qed.

Lemma exact_of_int z : of_int z = Some (inject_Z z).
Proof. done. Qed.


Lemma exact_abs a : Math_abs (Some a) = Some (Qabs a).
Proof. done. Qed.

Lemma exact_div a b : ¬ (b == 0)%Q → (Some a / Some b)%js = Some (Qred (a / b)).
Proof.
  intros Hb. cbn. unfold Exact.div.
  destruct (Qeq_bool b 0) eqn:E; [|done].
  by apply Qeq_bool_iff in E.
Qed.

Lemma exact_div_nat a n :
  n ≠ 0%nat → (Some a / of_nat n)%js = Some (Qred (a / inject_Z (Z.of_nat n))).
Proof.
  intros Hn. apply exact_div. unfold Qeq, inject_Z. simpl. lia.
Qed.

Lemma exact_le a b : (Some a <= Some b)%js = true ↔ (a <= b)%Q.
Proof. cbn. apply Qle_bool_iff. Qed.

Lemma exact_lt a b : (Some a < Some b)%js = true ↔ (a < b)%Q.
Proof.
  cbn. unfold Exact.Qlt_bool. rewrite negb_true_iff.
  rewrite <- not_true_iff_false, Qle_bool_iff. split; [apply Qnot_le_lt|apply Qlt_not_le].
Qed.

Lemma exact_round a :
  ∃ r, round (Some a) = Some r ∧ (r == half_up_2dp a)%Q.
Proof.
  unfold round. change (of_int 100) with (Some (inject_Z 100)).
  rewrite exact_mul. cbn [Math_round Exact.number fmap option_fmap option_map].
  rewrite exact_div by done. eexists; split; [done|].
  rewrite Qred_correct. unfold half_up_2dp, Exact.round_half_up.
  by rewrite Qred_correct.
Qed.

Lemma exact_sum_by_from {A} (f : A → @num Exact.number) (l : list A) (a : Q) :
  Forall (λ x, is_Some (f x)) l →
  ∃ s, foldl (λ s x, (s + f x)%js) (Some a) l = Some s
       ∧ (s == a + Qsum ((λ x, qval (f x)) <$> l))%Q.
Proof.
  intros Hl. revert a. induction Hl as [|x l [q Hq] _ IH]; intros a.
  { exists a. split; [done|]. unfold Qsum. simpl. lra. }
  rewrite fmap_cons. cbn [foldl].
  rewrite Hq, exact_add. destruct (IH (Qred (a + q))) as (s & -> & Hs).
  exists s. split; [done|]. rewrite Hs, Qred_correct.
  unfold Qsum. cbn [foldr qval default from_option].
  unfold id. ring.
Qed.

Lemma exact_sum_by {A} (f : A → @num Exact.number) (l : list A) :
  Forall (λ x, is_Some (f x)) l →
  ∃ s, sum_by f l = Some s ∧ (s == Qsum ((λ x, qval (f x)) <$> l))%Q.
Proof.
  intros Hl. destruct (exact_sum_by_from f l 0 Hl) as (s & Hs & Heq).
  exists s. split; [done|]. rewrite Heq. unfold inject_Z. lra.
Qed.

(** The mean the code computes over a non-empty array of finite values
    is the arithmetic mean. *)
Lemma exact_mean {A} (f : A → @num Exact.number) (l : list A) :
  l ≠ [] → Forall (λ x, is_Some (f x)) l →
  ∃ m, (sum_by f l / of_nat (length l))%js = Some m
       ∧ (m == Qmean ((λ x, qval (f x)) <$> l))%Q.
Proof.
  intros Hne Hl. destruct (exact_sum_by f l Hl) as (s & -> & Hs).
  rewrite exact_div_nat by by destruct l.
  eexists; split; [done|].
  rewrite Qred_correct. unfold Qmean. by rewrite Hs, length_fmap.
Qed.

End exact_arithmetic.

(** ** Baselines *)

Section exact_baselines.
#[local] Existing Instance Exact.number.

Lemma outcome_score_finite key : plain_key key → is_Some (outcome_score key).
Proof.
  unfold plain_key, outcome_score, OUTCOME_SCORE_MAP_get. intros Hkey.
  destruct (OUTCOME_SCORE_MAP !! key); [done|].
  by rewrite bool_decide_eq_false_2.
Qed.

Lemma confProbFromBand_finite b : is_Some (confProbFromBand b).
Proof. by destruct b. Qed.

Lemma outcomeProbFromScore_finite score : is_Some (outcomeProbFromScore score).
Proof. unfold outcomeProbFromScore. by repeat case_match. Qed.

Lemma derive_one_finite d r :
  plain_key (expectation_comparison r) → finite_pair (derive_one d r).
Proof.
  intros Hkey. split; [by apply outcome_score_finite|].
  cbn [calibrationError derive_one].
  destruct (confProbFromBand_finite (confBand (confidence d))) as [p ->].
  destruct (outcomeProbFromScore_finite (outcome_score (expectation_comparison r)))
    as [q ->].
  by rewrite exact_sub.
Qed.

Lemma derive_finite ds rs :
  Forall (λ r, plain_key (expectation_comparison r)) rs →
  Forall finite_pair (derive ds rs).
Proof.
  rewrite !Forall_forall. intros Hrs x (d & r & _ & Hr & _ & ->)%derive_elem_of.
  by apply derive_one_finite, Hrs.
Qed.

Lemma surprise_finite (l : list DerivedDecision) :
  Forall (λ d, is_Some (of_int (surprise_score (review d)))) l.
Proof. by apply Forall_true. Qed.



End exact_baselines.



(** ** The segment miner *)

Section segments.
Context `{JSNumber}.

Lemma candidates_length : length candidates = 180%nat.
Proof. done. Qed.


Lemma segment_id_NoDup : NoDup (segment_id <$> candidates).
Proof. apply (bool_decide_unpack _). vm_compute. reflexivity. Qed.


Lemma segment_card_id derived bl c card :
  segment_card derived bl c = Some card → card_id card = segment_id c.
Proof.
  unfold segment_card. repeat case_match; [done..|]. by intros [= <-].
Qed.


Lemma segment_card_unfold derived bl c :
  let seg := filter (in_segment c) derived in
  let m := segment_metrics seg bl in
  segment_card derived bl c =
    if decide (5 ≤ length seg)%nat
    then if interesting m
         then Some {| card_id := segment_id c;
                      tags := ["segment"; seg_type c; seg_imp c; seg_spd c;
                               ConfBand_name (seg_band c)];
                      strength := segment_strength m;
                      evidence := segment_evidence m bl |}
         else None
    else None.
Proof.
  intros seg m. unfold segment_card. fold seg. fold m.
  change (m_n m) with (length seg).
  unfold GATING_THRESHOLDS.segmentMinSamples.
  destruct (Nat.ltb_spec (length seg) 5); repeat case_decide; try done; try lia.
  by destruct (interesting m).
Qed.

Lemma mineSegments_unfold derived bl :
  mineSegments derived bl =
    take 6 (js_sort (λ a b, (lift_score b - lift_score a > of_int 0)%js)
                    (segment_cards derived bl)).
Proof. unfold mineSegments. apply (slice_0 _ 6). Qed.

Lemma mineSegments_length derived bl : (length (mineSegments derived bl) ≤ 6)%nat.
Proof. rewrite mineSegments_unfold, length_take. lia. Qed.

Lemma mineSegments_subseteq derived bl card :
  card ∈ mineSegments derived bl → card ∈ segment_cards derived bl.
Proof.
  rewrite mineSegments_unfold. intros Hc%subseteq_take.
  by rewrite js_sort_elem_of in Hc.
Qed.

End segments.

Section exact_segments.
#[local] Existing Instance Exact.number.

Lemma computeBaselines_finite derived :
  Forall finite_pair derived → finite_baseline (computeBaselines derived).
Proof.
  intros Hfin. destruct (decide (derived = [])) as [->|Hne].
  { by repeat split. }
  unfold finite_baseline, computeBaselines.
  rewrite decide_False by by destruct derived.
  cbn [avgOutcomeScore avgSurprise avgCalibrationError].
  destruct (exact_mean outcomeScore derived Hne) as (mo & -> & _).
  { eapply Forall_impl; [done|]. by intros ? [??]. }
  destruct (exact_mean (λ d, of_int (surprise_score (review d))) derived Hne)
    as (ms & -> & _); [apply surprise_finite|].
  destruct (exact_mean calibrationError derived Hne) as (mc & -> & _).
  { eapply Forall_impl; [done|]. by intros ? [??]. }
  destruct (exact_round mo) as (? & -> & _), (exact_round ms) as (? & -> & _),
    (exact_round mc) as (? & -> & _).
  eauto.
Qed.

Lemma exact_repeat_flag (x : DerivedDecision) :
  (if decide (would_repeat (review x) = Some "yes") then of_int 1 else of_int 0)
  = Some (if decide (would_repeat (review x) = Some "yes") then 1 else 0)%Q.
Proof. by case_decide. Qed.




End exact_segments.

Section exact_ranking.
#[local] Existing Instance Exact.number.



(** Every card the miner emits comes from a candidate with at least 5
    matching pairs, and carries that candidate's evidence. *)
Lemma segment_cards_elem_of derived bl card :
  card ∈ segment_cards derived bl →
  ∃ c, c ∈ candidates ∧ card_id card = segment_id c
       ∧ (5 ≤ length (filter (in_segment c) derived))%nat
       ∧ evidence card
         = segment_evidence (segment_metrics (filter (in_segment c) derived) bl) bl.
Proof.
  intros (c & Hc & Hcard)%list_elem_of_omap. exists c.
  rewrite segment_card_unfold in Hcard.
  case_decide; [|done]. destruct (interesting _); [|done].
  injection Hcard as <-. done.
Qed.





End exact_ranking.



Section exact_evidence.
#[local] Existing Instance Exact.number.






End exact_evidence.

(** ** Totality: every number of the result is finite *)

Section exact_total.
#[local] Existing Instance Exact.number.

Lemma js_index_finite (arr : list Z) (i : Z) :
  0 ≤ i < Z.of_nat (length arr) → is_Some (js_index arr i).
Proof.
  intros Hi. unfold js_index.
  destruct (Z.ltb_spec i 0); [lia|].
  destruct (lookup_lt_is_Some_2 arr (Z.to_nat i)) as [z ->]; [lia|done].
Qed.

Lemma sorted_confidence_length (derived : list DerivedDecision) :
  length (sorted_confidence derived) = length derived.
Proof. unfold sorted_confidence. by rewrite js_sort_length, length_map. Qed.

Lemma medianConfidence_finite (derived : list DerivedDecision) :
  derived ≠ [] → is_Some (medianConfidence derived).
Proof.
  intros Hne. unfold medianConfidence.
  pose proof (sorted_confidence_length derived) as Hlen.
  assert (0 < length derived)%nat as Hpos by (destruct derived; simpl; [done|lia]).
  set (arr := sorted_confidence derived) in *.
  pose proof (Nat.div_mod_eq (length arr) 2) as Hdiv.
  pose proof (Nat.mod_upper_bound (length arr) 2) as Hmod.
  case_decide as Hodd.
  - apply js_index_finite. lia.
  - destruct (js_index_finite arr (Z.of_nat (length arr / 2) - 1)) as [a ->]; [lia|].
    destruct (js_index_finite arr (Z.of_nat (length arr / 2))) as [b ->]; [lia|].
    rewrite exact_add, exact_of_int, exact_div by done. done.
Qed.

Lemma iqr_finite (derived : list DerivedDecision) :
  derived ≠ [] → is_Some (iqr derived).
Proof.
  intros Hne. unfold iqr.
  pose proof (sorted_confidence_length derived) as Hlen.
  assert (0 < length derived)%nat as Hpos by (destruct derived; simpl; [done|lia]).
  set (arr := sorted_confidence derived) in *.
  destruct (js_index_finite arr ((Z.of_nat (length arr) - 1) / 4)) as [a ->].
  { split; [apply Z.div_pos; lia|]. apply Z.div_lt_upper_bound; lia. }
  destruct (js_index_finite arr ((Z.of_nat (length arr) - 1) * 3 / 4)) as [b ->].
  { split; [apply Z.div_pos; lia|]. apply Z.div_lt_upper_bound; lia. }
  by rewrite exact_sub.
Qed.

Lemma round_finite (x : num) : is_Some x → is_Some (round x).
Proof. intros [q ->]. destruct (exact_round q) as (r & -> & _). done. Qed.

Lemma segment_evidence_finite seg bl :
  seg ≠ [] → Forall finite_pair seg → finite_baseline bl →
  Forall finite_evidence (segment_evidence (segment_metrics seg bl) bl).
Proof.
  intros Hne Hfin ([bo Hbo] & [bs Hbs] & [bc Hbc]).
  unfold segment_evidence, segment_metrics.
  cbn [m_n m_avgOutcome m_avgSurprise m_repeatRate m_avgCalError m_outcomeLift
       m_surpriseLift m_calErrorLift].
  destruct (exact_mean outcomeScore seg Hne) as (mo & -> & _).
  { eapply Forall_impl; [done|]. by intros ? [??]. }
  destruct (exact_mean (λ d, of_int (surprise_score (review d))) seg Hne)
    as (ms & -> & _); [apply surprise_finite|].
  destruct (exact_mean calibrationError seg Hne) as (mc & -> & _).
  { eapply Forall_impl; [done|]. by intros ? [??]. }
  destruct (exact_mean
              (λ x, if decide (would_repeat (review x) = Some "yes")
                    then of_int 1 else of_int 0) seg Hne) as (mr & -> & _).
  { apply Forall_true. intros x. by rewrite exact_repeat_flag. }
  rewrite Hbo, Hbs, Hbc.
  repeat constructor; cbn [ev_value ev_baseline ev_lift];
    try done; apply round_finite; try done; by destruct (negb _).
Qed.

Lemma trend_card_finite name metric lastN delta threshold strong_above :
  is_Some delta →
  Forall (λ card, Forall finite_evidence (evidence card))
         (trend_card name metric lastN delta threshold strong_above).
Proof.
  intros Hdelta. rewrite trend_card_unfold. case_match; repeat constructor; done.
Qed.

Lemma mean_delta_finite tail prev (fn : DerivedDecision → num) :
  tail ≠ [] → prev ≠ [] →
  Forall (λ d, is_Some (fn d)) tail → Forall (λ d, is_Some (fn d)) prev →
  is_Some (round (mean_delta tail prev fn)).
Proof.
  intros Ht Hp Hft Hfp. unfold mean_delta, avg.
  destruct (exact_mean fn tail Ht Hft) as (mt & -> & _).
  destruct (exact_mean fn prev Hp Hfp) as (mp & -> & _).
  rewrite exact_sub. by apply round_finite.
Qed.

Lemma analyzeTrends_finite (derived : list DerivedDecision) :
  Forall finite_pair derived →
  Forall (λ card, Forall finite_evidence (evidence card)) (analyzeTrends derived).
Proof.
  intros Hfin. rewrite analyzeTrends_unfold. cbv zeta.
  set (n := length derived). set (window := Nat.min 10 (n / 2)).
  case_decide as Hw; [constructor|].
  assert (2 * window ≤ n)%nat as H2w.
  { unfold window. pose proof (Nat.div_mod_eq n 2). lia. }
  assert (drop (n - window) derived ≠ []) as Ht.
  { intros Heq%(f_equal length). rewrite length_drop in Heq. simpl in Heq.
    fold n in Heq. lia. }
  assert (take window (drop (n - 2 * window) derived) ≠ []) as Hp.
  { intros Heq%(f_equal length). rewrite length_take, length_drop in Heq.
    simpl in Heq. fold n in Heq. lia. }
  assert (Forall finite_pair (drop (n - window) derived)) as Hft
    by by apply Forall_drop.
  assert (Forall finite_pair (take window (drop (n - 2 * window) derived))) as Hfp
    by by apply Forall_take, Forall_drop.
  rewrite !Forall_app. split_and!; apply trend_card_finite, mean_delta_finite;
    try done; try (eapply Forall_impl; [done|]; by intros ? [??]);
    try apply surprise_finite.
Qed.

(** For reviews whose outcome values do not name an inherited member of
    the outcome table, [generateInsights] produces finite numbers only:
    every division has a non-zero divisor and every array access is within
    bounds. *)
Theorem generateInsights_finite (ds : list Decision) (rs : list Review) :
  Forall (λ r, plain_key (expectation_comparison r)) rs →
  finite_insights (generateInsights ds rs).
Proof.
  intros Hrs.
  assert (Forall finite_pair (derive ds rs)) as Hfin by by apply derive_finite.
  pose proof (computeBaselines_finite _ Hfin) as Hbl.
  split; [done|].
  rewrite generateInsights_cards. cbv zeta.
  set (derived := derive ds rs) in *. set (bl := computeBaselines derived) in *.
  rewrite !Forall_app. split_and!.
  - case_decide as Hn; [|constructor].
    assert (derived ≠ []) as Hne by (intros Heq; rewrite Heq in Hn; simpl in Hn; lia).
    repeat constructor; cbn [ev_value ev_baseline ev_lift]; try done.
    + by apply medianConfidence_finite.
    + by apply iqr_finite.
    + apply Hbl.
  - case_decide as Hn; [|constructor].
    apply Forall_forall. intros card Hcard%mineSegments_subseteq.
    apply segment_cards_elem_of in Hcard as (c & _ & _ & H5 & ->).
    apply segment_evidence_finite; [|by apply Forall_filter|done].
    intros Heq. rewrite Heq in H5. simpl in H5. lia.
  - case_decide; [|constructor]. by apply analyzeTrends_finite.
Qed.

End exact_total.

(** ** Scenarios of the specification *)

(** Scenario A: without decisions and reviews the result has review count
    0, no card, and a baseline of zeros. *)
Theorem empty_input `{JSNumber} :
  generateInsights [] []
  = {| cards := [];
       baseline := {| reviewCount := 0; avgOutcomeScore := of_int 0;
                      avgSurprise := of_int 0; avgCalibrationError := of_int 0 |};
       ins_reviewCount := 0; minimumReviewsNeeded := 3 |}.
Proof. reflexivity. Qed.

Section exact_scenarios.
#[local] Existing Instance Exact.number.

(** Scenario D: with 24 derived pairs, when the surprise scores of the last
    10 average 20 points more than those of the 10 before, a surprise-trend
    card is emitted, strong, with delta 20. *)
Theorem surprise_trend_scenario (derived : list DerivedDecision) :
  length derived = 24%nat →
  (mean_surprise (drop 14 derived) - mean_surprise (take 10 (drop 4 derived)) == 20)%Q →
  ∃ card e v,
    card ∈ analyzeTrends derived ∧ card_id card = "trend-surprise"
    ∧ strength card = strong
    ∧ evidence card = [e] ∧ ev_n e = 10%nat ∧ ev_value e = Some v ∧ (v == 20)%Q.
Proof.
  intros Hn Hdiff. rewrite analyzeTrends_unfold. cbv zeta. rewrite Hn.
  change (Nat.min 10 (24 / 2)) with 10%nat.
  change (24 - 10)%nat with 14%nat. change (24 - 2 * 10)%nat with 4%nat.
  rewrite decide_False by lia.
  set (tail := drop 14 derived) in *.
  set (prev := take 10 (drop 4 derived)) in *.
  assert (tail ≠ []) as Ht.
  { intros Heq%(f_equal length). unfold tail in Heq.
    rewrite length_drop, Hn in Heq. discriminate. }
  assert (prev ≠ []) as Hp.
  { intros Heq%(f_equal length). unfold prev in Heq.
    rewrite length_take, length_drop, Hn in Heq. discriminate. }
  unfold mean_delta at 2. unfold avg.
  destruct (exact_mean (λ d, of_int (surprise_score (review d))) tail Ht)
    as (mt & -> & Hmt); [apply surprise_finite|].
  destruct (exact_mean (λ d, of_int (surprise_score (review d))) prev Hp)
    as (mp & -> & Hmp); [apply surprise_finite|].
  rewrite exact_sub. destruct (exact_round (Qred (mt - mp))) as (v & Hv & Hv20).
  assert (v == 20)%Q as Hv'.
  { rewrite Hv20. unfold half_up_2dp.
    assert (Qred (mt - mp) * 100 + (1 # 2) == 2000 + (1 # 2))%Q as ->.
    { rewrite Qred_correct, Hmt, Hmp. fold (mean_surprise tail) (mean_surprise prev).
      rewrite Hdiff. reflexivity. }
    reflexivity. }
  rewrite Hv.
  assert ((Math_abs (Some v) >= of_int 8)%js = true) as H8.
  { rewrite exact_abs, exact_of_int. apply exact_le. by rewrite Hv'. }
  assert ((Math_abs (Some v) > of_int 15)%js = true) as H15.
  { rewrite exact_abs, exact_of_int. apply exact_lt. by rewrite Hv'. }
  exists (@trend_card_of Exact.number "surprise" "surpriseDelta" 10 (Some v)
            (of_int 15)).
  eexists _, v. split_and!; [|done| |done..].
  - apply elem_of_app. right. apply elem_of_app. left.
    rewrite trend_card_unfold, H8. apply list_elem_of_here.
  - cbn [strength trend_card_of]. by rewrite H15.
Qed.

End exact_scenarios.

Lemma surprise_trend_scenario_witness :
  has_card (@analyzeTrends Exact.number (derive rising_decisions rising_reviews))
           "trend-surprise".
Proof.
  destruct (surprise_trend_scenario (derive rising_decisions rising_reviews))
    as (card & _ & _ & Hcard & Hid & _).
  - vm_compute. reflexivity.
  - vm_compute. reflexivity.
  - by exists card.
Defined.

(** ** The legacy summaries: confidence *)

Lemma OUTCOME_SCORE_MAP_lookup key :
  OUTCOME_SCORE_MAP !! key =
    if decide (key = "much_worse") then Some (-2)
    else if decide (key = "slightly_worse") then Some (-1)
    else if decide (key = "as_expected") then Some 0
    else if decide (key = "slightly_better") then Some 1
    else if decide (key = "much_better") then Some 2
    else None.
Proof.
  unfold OUTCOME_SCORE_MAP. cbn [list_to_map foldr uncurry Datatypes.uncurry fst snd].
  rewrite !lookup_insert, lookup_empty.
  repeat (case_decide; simplify_eq; try done).
Qed.

Lemma outcome_score_cases `{JSNumber} key :
  key ∈ ["much_worse"; "slightly_worse"; "as_expected"; "slightly_better";
         "much_better"]
  ∨ (key ∈ Object_prototype_names ∧ outcome_score key = NaN
     ∧ outcome_of key = worse)
  ∨ ((key ∉ Object_prototype_names) ∧ outcome_score key = of_int 0
     ∧ outcome_of key = neutral).
Proof.
  unfold outcome_score, OUTCOME_SCORE_MAP_get. rewrite OUTCOME_SCORE_MAP_lookup.
  repeat (case_decide;
          [left; subst key; rewrite !elem_of_cons; naive_solver|]).
  right. unfold outcome_of.
  rewrite (bool_decide_eq_false_2 (key ∈ ["slightly_better"; "much_better"])).
  2:{ rewrite !elem_of_cons, elem_of_nil. naive_solver. }
  destruct (decide (key ∈ Object_prototype_names)) as [Hin|Hin].
  - left. rewrite bool_decide_eq_true_2 by done.
    rewrite bool_decide_eq_true_2 by (apply elem_of_app; by right). done.
  - right. rewrite bool_decide_eq_false_2 by done.
    rewrite bool_decide_eq_false_2; [done|].
    rewrite elem_of_app, !elem_of_cons, elem_of_nil. naive_solver.
Qed.

Ltac calibration_by_cases N d r :=
  unfold verdict, calibration; cbn [confProb outcomeProb derive_one decision review];
  destruct (@outcome_score_cases N (expectation_comparison r))
    as [Hk|[(_ & -> & ->)|(_ & -> & ->)]];
  [ rewrite !elem_of_cons, elem_of_nil in Hk;
    destruct Hk as [->|[->|[->|[->|[->|[]]]]]] | | ];
  destruct (confBand (confidence d)); vm_compute; reflexivity.

(** The verdict the loop reaches on a derived record, on doubles and on
    exact arithmetic. *)
Lemma calibration_double d r :
  @calibration Binary64.number (@derive_one Binary64.number d r)
  = @verdict Binary64.number (@derive_one Binary64.number d r).
Proof. calibration_by_cases Binary64.number d r. Qed.

Lemma calibration_exact d r :
  @calibration Exact.number (@derive_one Exact.number d r)
  = @verdict Exact.number (@derive_one Exact.number d r).
Proof. calibration_by_cases Exact.number d r. Qed.

Section counts.
Context `{JSNumber}.

Lemma calibration_counts_from (derived : list DerivedDecision) (w o u : nat) :
  foldl (λ '(well, over', under') d,
           match calibration d with
           | well_calibrated => (S well, over', under')
           | overconfident => (well, S over', under')
           | underconfident => (well, over', S under')
           end)
        (w, o, u) derived
  = (w + length (filter (λ d, calibration d = well_calibrated) derived),
     o + length (filter (λ d, calibration d = overconfident) derived),
     u + length (filter (λ d, calibration d = underconfident) derived))%nat.
Proof.
  revert w o u. induction derived as [|d l IH]; intros w o u.
  - cbn. by rewrite !Nat.add_0_r.
  - cbn [foldl]. rewrite !filter_cons.
    destruct (calibration d); rewrite IH; simpl; rewrite !pair_equal_spec; lia.
Qed.

Lemma calibration_counts_filter (derived : list DerivedDecision) :
  calibration_counts derived
  = (length (filter (λ d, calibration d = well_calibrated) derived),
     length (filter (λ d, calibration d = overconfident) derived),
     length (filter (λ d, calibration d = underconfident) derived)).
Proof. unfold calibration_counts. by rewrite calibration_counts_from. Qed.

Lemma calibration_counts_total (derived : list DerivedDecision) :
  (length (filter (λ d, calibration d = well_calibrated) derived)
   + length (filter (λ d, calibration d = overconfident) derived)
   + length (filter (λ d, calibration d = underconfident) derived)
   = length derived)%nat.
Proof.
  induction derived as [|d l IH]; [done|].
  rewrite !filter_cons. destruct (calibration d); simpl; lia.
Qed.

Lemma filter_ext_elem {A} (P Q : A → Prop) `{!∀ x, base.Decision (P x)}
    `{!∀ x, base.Decision (Q x)} (l : list A) :
  (∀ x, x ∈ l → P x ↔ Q x) → filter P l = filter Q l.
Proof.
  intros Hl. induction l as [|a l IH]; [done|].
  rewrite !filter_cons, IH by (intros x Hx; apply Hl; by right).
  apply decide_ext, Hl. by left.
Qed.

End counts.

Lemma confidence_counts_generic `{JSNumber} ds rs :
  (∀ d r, calibration (derive_one d r) = verdict (derive_one d r)) →
  confidence_counts_by_verdict ds rs.
Proof.
  intros Hcal. unfold confidence_counts_by_verdict. cbv zeta.
  unfold confidenceInsight. rewrite calibration_counts_filter.
  cbn [wellCalibratedCount overconfidentCount underconfidentCount].
  assert (∀ v, filter (λ d, calibration d = v) (derive ds rs)
               = filter (λ d, verdict d = v) (derive ds rs)) as Hf.
  { intros v. apply filter_ext_elem.
    intros x (d & r & _ & _ & _ & ->)%derive_elem_of. by rewrite Hcal. }
  pose proof (calibration_counts_total (derive ds rs)) as Htot.
  rewrite !Hf in Htot. rewrite !Hf. done.
Qed.

(** The confidence summary counts a pair as well calibrated exactly when
    its confidence is in 40..59 and the outcome is neutral, or its
    confidence is 80 or more and the outcome is better than expected; the
    other pairs are overconfident or underconfident as [calibration_of]
    says, and the three counts add up to the review count.  This holds on
    doubles and on exact arithmetic. *)
Theorem confidence_counts (ds : list Decision) (rs : list Review) :
  @confidence_counts_by_verdict Binary64.number ds rs
  ∧ @confidence_counts_by_verdict Exact.number ds rs.
Proof.
  split; apply confidence_counts_generic.
  - apply calibration_double.
  - apply calibration_exact.
Qed.

(** ** The legacy summaries: rates and averages on exact arithmetic *)


Lemma percent_all (n : nat) : n ≠ 0%nat → percent n n = 100.
Proof.
  intros Hn. unfold percent. destruct (Nat.eqb_spec n 0) as [->|_]; [done|].
  replace (200 * Z.of_nat n + Z.of_nat n) with (1 * Z.of_nat n + 100 * (2 * Z.of_nat n)) by lia.
  rewrite Z.div_add by lia. rewrite Z.div_small by lia. done.
Qed.

Lemma percent_none (n : nat) : percent 0 n = 0.
Proof.
  unfold percent. destruct (Nat.eqb_spec n 0) as [->|Hn]; [done|].
  apply Z.div_small. lia.
Qed.

Section exact_rates.
#[local] Existing Instance Exact.number.

Lemma exact_Math_round (q : Q) :
  Math_round (Some q) = Some (inject_Z (Qfloor (q + (1 # 2)))).
Proof. reflexivity. Qed.



End exact_rates.

(** ** The legacy summaries: repeat rate *)

Section repeat_counts_proofs.
Context `{JSNumber}.



End repeat_counts_proofs.



(** ** The legacy summaries: speed against regret *)

Section buckets.
Context `{JSNumber}.

Lemma of_speed_cons spd d (l : list DerivedDecision) :
  of_speed spd (d :: l)
  = if decide (decision_speed (decision d) = spd) then d :: of_speed spd l
    else of_speed spd l.
Proof. unfold of_speed. by rewrite filter_cons. Qed.

Lemma counted_nil b : counted b [] = b.
Proof. destruct b. unfold counted. cbn. by rewrite !Nat.add_0_r. Qed.

Lemma counted_cons b d (l : list DerivedDecision) :
  counted b (d :: l)
  = counted (increment (bool_decide (would_repeat (review d) = Some "no")) b) l.
Proof.
  unfold counted, increment, regretted. rewrite filter_cons. cbn [b_n b_regret].
  case_bool_decide; [rewrite decide_True by done|rewrite decide_False by done];
    cbn [length]; f_equal; lia.
Qed.

Lemma fill_from_error e (l : list DerivedDecision) : fill_from (inl e) l = inl e.
Proof. induction l as [|d l IH]; [done|]. apply IH. Qed.

Lemma fill_from_app start (l1 l2 : list DerivedDecision) :
  fill_from start (l1 ++ l2) = fill_from (fill_from start l1) l2.
Proof. apply foldl_app. Qed.

(** Without a speed [__proto__] nothing is added to [Object.prototype], no
    turn raises, and the three buckets count the records of their speed. *)
Lemma fill_from_plain bs (l : list DerivedDecision) :
  prototype_keys bs = ∅ →
  Forall (λ d, decision_speed (decision d) ≠ "__proto__") l →
  ∃ bs', fill_from (inr bs) l = inr bs'
         ∧ prototype_keys bs' = ∅
         ∧ quick bs' = counted (quick bs) (of_speed "quick" l)
         ∧ moderate bs' = counted (moderate bs) (of_speed "moderate" l)
         ∧ slow bs' = counted (slow bs) (of_speed "slow" l).
Proof.
  intros Hproto Hl. revert bs Hproto.
  induction Hl as [|d l Hd Hl IH]; intros bs Hproto.
  - exists bs. by rewrite !counted_nil.
  - cbn [fill_from foldl]. fold (fill_from (buckets_step bs d) l).
    rewrite !of_speed_cons. unfold buckets_step. rewrite Hproto.
    set (regret := bool_decide _).
    repeat case_decide; try congruence;
      try match goal with Hin : _ ∈ ∅ |- _ => by apply elem_of_empty in Hin end;
      match goal with
      | |- ∃ _, fill_from (inr ?bs1) _ = _ ∧ _ =>
          destruct (IH bs1) as (bs' & -> & ? & Hq & Hm & Hs'); [done|];
          exists bs'; rewrite Hq, Hm, Hs', ?counted_cons; done
      end.
Qed.

End buckets.

Section speed.
Context `{JSNumber}.

Lemma fill_from_cons start d (l : list DerivedDecision) :
  fill_from start (d :: l)
  = fill_from (match start with inl e => inl e | inr bs => buckets_step bs d end) l.
Proof. reflexivity. Qed.

(** [__proto__] never becomes an own key. *)
Lemma buckets_step_own bs d bs' :
  buckets_step bs d = inr bs' →
  own_keys bs' ⊆ {[decision_speed (decision d)]} ∪ own_keys bs
  ∧ prototype_keys bs ⊆ prototype_keys bs'
  ∧ ("__proto__" ∉ own_keys bs → "__proto__" ∉ own_keys bs').
Proof.
  unfold buckets_step. intros Hstep.
  repeat case_decide; simplify_eq; cbn [own_keys prototype_keys];
    split_and!; set_solver.
Qed.

Lemma fill_from_own bs (l : list DerivedDecision) bs' :
  fill_from (inr bs) l = inr bs' →
  own_keys bs' ⊆ list_to_set ((λ d, decision_speed (decision d)) <$> l) ∪ own_keys bs
  ∧ prototype_keys bs ⊆ prototype_keys bs'
  ∧ ("__proto__" ∉ own_keys bs → "__proto__" ∉ own_keys bs').
Proof.
  revert bs. induction l as [|d l IH]; intros bs Hfill.
  - cbn in Hfill. simplify_eq. split_and!; [apply union_subseteq_r|done..].
  - rewrite fill_from_cons in Hfill.
    destruct (buckets_step bs d) as [e|bs1] eqn:Hstep.
    { by rewrite fill_from_error in Hfill. }
    destruct (buckets_step_own _ _ _ Hstep) as (Ho1 & Hp1 & Hn1).
    destruct (IH _ Hfill) as (Ho & Hp & Hn).
    rewrite fmap_cons, list_to_set_cons. split_and!; [| |tauto].
    + etrans; [exact Ho|]. apply union_least.
      * apply union_subseteq_l', union_subseteq_r.
      * etrans; [exact Ho1|]. apply union_least.
        -- apply union_subseteq_l', union_subseteq_l.
        -- apply union_subseteq_r.
    + by etrans.
Qed.

(** A turn for the speed [__proto__] creates [n] on [Object.prototype]. *)
Lemma buckets_step_proto bs d :
  decision_speed (decision d) = "__proto__" → "__proto__" ∉ own_keys bs →
  ∃ bs', buckets_step bs d = inr bs' ∧ "n" ∈ prototype_keys bs'
         ∧ own_keys bs' = own_keys bs.
Proof.
  intros Hs Hown. unfold buckets_step. rewrite Hs.
  repeat (case_decide; try done);
    (eexists; split; [done|]; cbn [prototype_keys own_keys]; split; [|done];
     by apply elem_of_union_l, elem_of_union_l, elem_of_singleton).
Qed.

(** A turn for the speed [n] raises once [Object.prototype] has an [n],
    unless an earlier turn has made [n] an own key. *)
Lemma buckets_step_n bs d :
  decision_speed (decision d) = "n" → "n" ∈ prototype_keys bs → "n" ∉ own_keys bs →
  buckets_step bs d = inl TypeError.
Proof.
  intros Hs Hproto Hown. unfold buckets_step. rewrite Hs.
  assert ("n" ∉ Object_prototype_names) as Hplain.
  { apply (bool_decide_unpack _). by vm_compute. }
  by repeat (case_decide; try done).
Qed.

Lemma fill_buckets_raises (l1 l2 l3 : list DerivedDecision) a b :
  decision_speed (decision a) = "__proto__" →
  decision_speed (decision b) = "n" →
  Forall (λ d, decision_speed (decision d) ≠ "n") (l1 ++ l2) →
  fill_buckets (l1 ++ a :: l2 ++ b :: l3) = inl TypeError.
Proof.
  intros Ha Hb Hl. unfold fill_buckets.
  apply Forall_app in Hl as [Hl1 Hl2].
  rewrite fill_from_app.
  destruct (fill_from (inr initial_buckets) l1) as [[]|bs1] eqn:H1.
  { by rewrite fill_from_error. }
  destruct (fill_from_own _ _ _ H1) as (Ho1 & _ & Hn1).
  rewrite fill_from_cons.
  destruct (buckets_step_proto bs1 a Ha) as (bs2 & -> & Hp2 & Ho2).
  { apply Hn1. set_solver. }
  rewrite fill_from_app.
  destruct (fill_from (inr bs2) l2) as [[]|bs3] eqn:H3.
  { by rewrite fill_from_error. }
  destruct (fill_from_own _ _ _ H3) as (Ho3 & Hp3 & _).
  rewrite fill_from_cons, buckets_step_n, fill_from_error; [done..| |].
  - by apply Hp3.
  - intros Hin. apply Ho3 in Hin. rewrite Ho2 in Hin.
    apply elem_of_union in Hin as [Hin|Hin].
    + apply elem_of_list_to_set, list_elem_of_fmap in Hin as (d & Hd & Hin).
      rewrite Forall_forall in Hl2. by apply (Hl2 d).
    + apply Ho1 in Hin. apply elem_of_union in Hin as [Hin|Hin]; [|set_solver].
      apply elem_of_list_to_set, list_elem_of_fmap in Hin as (d & Hd & Hin).
      rewrite Forall_forall in Hl1. by apply (Hl1 d).
Qed.

End speed.



(** [generateInsights] raises [TypeError] when at least 3 pairs are
    derived and, in review order, a pair whose decision has the speed
    [__proto__] comes before the first pair whose decision has the speed
    [n]. *)
Theorem speed_summary_raises `{JSNumber} `{!JSInfinity}
    (ds : list Decision) (rs : list Review)
    (l1 l2 l3 : list DerivedDecision) (a b : DerivedDecision) :
  derive ds rs = l1 ++ a :: l2 ++ b :: l3 →
  (3 ≤ length (derive ds rs))%nat →
  decision_speed (decision a) = "__proto__" →
  decision_speed (decision b) = "n" →
  Forall (λ d, decision_speed (decision d) ≠ "n") (l1 ++ l2) →
  generateInsights_legacy ds rs = inl TypeError.
Proof.
  intros Hd Hlen Ha Hb Hl. unfold generateInsights_legacy. cbv zeta.
  destruct (Nat.leb_spec GATING_THRESHOLDS.baselineCard (length (derive ds rs)))
    as [_|Hlt]; [|unfold GATING_THRESHOLDS.baselineCard in Hlt; lia].
  unfold speedInsight. rewrite Hd. by rewrite fill_buckets_raises.
Qed.

Lemma speed_summary_raises_witness :
  @generateInsights_legacy Exact.number _ polluting_decisions polluting_reviews
  = inl TypeError.
Proof.
  eapply (speed_summary_raises polluting_decisions polluting_reviews [] []).
  - vm_compute. reflexivity.
  - vm_compute. lia.
  - reflexivity.
  - reflexivity.
  - constructor.
Defined.

(** With fewer than 3 derived pairs [generateInsights] returns its result
    without any of the four summaries; with 3 or more, and no reviewed
    decision of speed [__proto__], it returns its result with all four. *)
Theorem legacy_summaries_gate `{JSNumber} `{!JSInfinity}
    (ds : list Decision) (rs : list Review) :
  let derived := derive ds rs in
  ((length derived < 3)%nat →
     generateInsights_legacy ds rs
     = inr {| ins := generateInsights ds rs; ins_confidence := None;
              ins_surprise := None; ins_speed := None; ins_repeat := None |})
  ∧ ((3 ≤ length derived)%nat →
     Forall (λ d, decision_speed (decision d) ≠ "__proto__") derived →
     ∃ s, speedInsight derived = inr s
          ∧ generateInsights_legacy ds rs
            = inr {| ins := generateInsights ds rs;
                     ins_confidence := Some (confidenceInsight derived);
                     ins_surprise := Some (surpriseInsight derived);
                     ins_speed := Some s;
                     ins_repeat := Some (repeatInsight derived) |}).
Proof.
  cbv zeta. unfold generateInsights_legacy. cbv zeta.
  unfold GATING_THRESHOLDS.baselineCard. split.
  - intros Hlt. destruct (Nat.leb_spec 3 (length (derive ds rs))); [lia|done].
  - intros Hle Hplain.
    destruct (Nat.leb_spec 3 (length (derive ds rs))); [|lia].
    unfold speedInsight, fill_buckets.
    destruct (fill_from_plain initial_buckets (derive ds rs) eq_refl Hplain)
      as (bs & -> & _).
    eexists. split; done.
Qed.

(** ** The legacy summaries: surprise by domain *)

Lemma first_seen_snoc l k :
  first_seen (l ++ [k])
  = if decide (k ∈ first_seen l) then first_seen l else first_seen l ++ [k].
Proof. unfold first_seen. by rewrite foldl_snoc. Qed.

Lemma first_seen_elem_of l k : k ∈ first_seen l ↔ k ∈ l.
Proof.
  induction l as [|x l IH] using rev_ind; [done|].
  rewrite first_seen_snoc, elem_of_app, list_elem_of_singleton.
  case_decide as Hx; [|rewrite elem_of_app, list_elem_of_singleton]; naive_solver.
Qed.

Lemma first_seen_NoDup l : NoDup (first_seen l).
Proof.
  induction l as [|x l IH] using rev_ind; [constructor|].
  rewrite first_seen_snoc. case_decide as Hx; [done|].
  apply NoDup_app. split_and!; [done| |apply NoDup_singleton].
  intros y Hy ->%list_elem_of_singleton. done.
Qed.

Lemma first_seen_app l1 l2 : ∃ more, first_seen (l1 ++ l2) = first_seen l1 ++ more.
Proof.
  induction l2 as [|x l2 [more IH]] using rev_ind.
  - exists []. by rewrite !app_nil_r.
  - rewrite app_assoc, first_seen_snoc, IH.
    case_decide; [by exists more|]. exists (more ++ [x]). by rewrite app_assoc.
Qed.

Lemma NoDup_split_unique {A} (a a' b b' : list A) k :
  NoDup (a ++ k :: b) → a ++ k :: b = a' ++ k :: b' → a = a'.
Proof.
  revert a'. induction a as [|x a IH]; intros [|x' a'] Hnd Heq.
  - done.
  - simplify_eq/=. apply NoDup_cons in Hnd as [Hk _]. set_solver.
  - simplify_eq/=. apply NoDup_cons in Hnd as [Hk _]. set_solver.
  - simplify_eq/=. apply NoDup_cons in Hnd as [_ Hnd]. f_equal. by apply IH.
Qed.

Section domain_map.
Context `{JSNumber} `{!JSInfinity}.

Lemma of_domain_snoc k (l : list DerivedDecision) d :
  of_domain k (l ++ [d])
  = of_domain k l ++ (if decide (decision_type (decision d) = k) then [d] else []).
Proof.
  unfold of_domain. rewrite filter_app, filter_cons, filter_nil. by case_decide.
Qed.

Lemma of_domain_nil k (l : list DerivedDecision) :
  k ∉ (λ d, decision_type (decision d)) <$> l → of_domain k l = [].
Proof.
  intros Hk. unfold of_domain. induction l as [|d l IH]; [done|].
  rewrite fmap_cons, not_elem_of_cons in Hk. destruct Hk as [Hd Hk].
  rewrite filter_cons, decide_False by done. by apply IH.
Qed.

Lemma domain_entry_other (l : list DerivedDecision) d k :
  decision_type (decision d) ≠ k → domain_entry (l ++ [d]) k = domain_entry l k.
Proof.
  intros Hk. unfold domain_entry. rewrite of_domain_snoc, decide_False by done.
  by rewrite app_nil_r.
Qed.

Lemma domainMap_add_entries (l : list DerivedDecision) d k (K : list string) :
  decision_type (decision d) = k →
  NoDup K → (k ∉ K → of_domain k l = []) →
  domainMap_add k (of_int (surprise_score (review d))) (domain_entry l <$> K)
  = domain_entry (l ++ [d]) <$> (if decide (k ∈ K) then K else K ++ [k]).
Proof.
  intros Hd. induction K as [|k0 K IH]; intros Hnd Hfresh.
  - rewrite decide_False by apply not_elem_of_nil. cbn.
    unfold domain_entry. rewrite of_domain_snoc, decide_True by done.
    rewrite Hfresh by apply not_elem_of_nil. done.
  - apply NoDup_cons in Hnd as [Hk0 Hnd]. rewrite fmap_cons.
    cbn [domainMap_add domain_entry]. destruct (decide (k0 = k)) as [->|Hne].
    + rewrite decide_True by left. rewrite fmap_cons. f_equal.
      * unfold domain_entry. rewrite of_domain_snoc, decide_True by done.
        rewrite length_app, Nat.add_1_r. f_equal. f_equal.
        unfold sum_by. by rewrite foldl_snoc.
      * apply list_fmap_ext. intros i k' Hk'. symmetry. apply domain_entry_other.
        rewrite Hd. intros ->. apply Hk0. by eapply list_elem_of_lookup_2.
    + fold (domain_entry l k0). rewrite IH; [|done|].
      2:{ intros Hk. apply Hfresh. intros [?|?]%elem_of_cons; [congruence|done]. }
      rewrite <-(domain_entry_other l d k0) by congruence.
      destruct (decide (k ∈ K)) as [Hin|Hin].
      * rewrite decide_True by (by right). done.
      * rewrite decide_False; [done|].
        intros [?|?]%elem_of_cons; [congruence|done].
Qed.

(** [domainMap] holds, in the order in which the domains are first seen,
    the number of records of each domain and the sum of their scores. *)
Lemma domainMap_entries (l : list DerivedDecision) :
  domainMap l = domain_entry l <$> first_seen ((λ d, decision_type (decision d)) <$> l).
Proof.
  induction l as [|d l IH] using rev_ind; [done|].
  unfold domainMap. rewrite foldl_snoc. fold (domainMap l). rewrite IH.
  rewrite fmap_snoc, first_seen_snoc.
  apply domainMap_add_entries; [done|apply first_seen_NoDup|].
  rewrite first_seen_elem_of. apply of_domain_nil.
Qed.

Lemma entry_av_domain (l : list DerivedDecision) k :
  entry_av (domain_entry l k) = avg (of_domain k l) (λ d, of_int (surprise_score (review d))).
Proof. reflexivity. Qed.

(** What one turn of the second loop does to each half of the state. *)
Lemma extremes_step_most e entry :
  most (extremes_step e entry)
  = (if exceeds (entry_av entry) (mostVal e) then Some entry.1 else most e)
  ∧ mostVal (extremes_step e entry)
    = (if exceeds (entry_av entry) (mostVal e) then Some (entry_av entry)
       else mostVal e).
Proof. unfold extremes_step, entry_av. cbv zeta. by repeat case_match. Qed.

Lemma extremes_step_least e entry :
  least (extremes_step e entry)
  = (if undercuts (entry_av entry) (leastVal e) then Some entry.1 else least e)
  ∧ leastVal (extremes_step e entry)
    = (if undercuts (entry_av entry) (leastVal e) then Some (entry_av entry)
       else leastVal e).
Proof.
  unfold extremes_step, entry_av. cbv zeta.
  destruct (exceeds _ _); cbn [leastVal least]; by destruct (undercuts _ _).
Qed.

End domain_map.

Section surprise_exact.
#[local] Existing Instance Exact.number.

Lemma exceeds_initial (q : Q) : @exceeds Exact.number _ (Some q) None = true.
Proof. reflexivity. Qed.

Lemma undercuts_initial (q : Q) : @undercuts Exact.number _ (Some q) None = true.
Proof. reflexivity. Qed.

Lemma domain_extremes_snoc (m : list (string * @DomainTotal Exact.number)) entry :
  domain_extremes (m ++ [entry]) = extremes_step (domain_extremes m) entry.
Proof. unfold domain_extremes. by rewrite foldl_snoc. Qed.

(** The second loop keeps the first entry with the greatest average. *)
Lemma most_first_highest (m : list (string * DomainTotal)) :
  Forall (λ y, is_Some (entry_av y)) m → m ≠ [] →
  ∃ m1 x m2,
    m = m1 ++ x :: m2
    ∧ most (domain_extremes m) = Some x.1
    ∧ mostVal (domain_extremes m) = Some (entry_av x)
    ∧ (∀ y, y ∈ m1 → (qval (entry_av y) < qval (entry_av x))%Q)
    ∧ (∀ y, y ∈ m2 → (qval (entry_av y) <= qval (entry_av x))%Q).
Proof.
  induction m as [|z m IH] using rev_ind; [done|]. intros Hfin _.
  apply Forall_app in Hfin as [Hfin [[qz Hz] _]%Forall_cons].
  destruct (extremes_step_most (domain_extremes m) z) as [Hm Hv].
  rewrite <-domain_extremes_snoc in Hm, Hv.
  destruct (decide (m = [])) as [->|Hne].
  { exists [], z, []. rewrite Hm, Hv, Hz, exceeds_initial.
    split_and!; [done..| |]; intros y Hy; by apply elem_of_nil in Hy. }
  destruct (IH Hfin Hne) as (m1 & x & m2 & -> & Hmost & Hval & Hlt & Hle).
  rewrite Hmost in Hm. rewrite Hval in Hm, Hv.
  apply Forall_app in Hfin as [_ [[qx Hx] _]%Forall_cons].
  rewrite Hz, Hx in Hm, Hv. rewrite Hx in Hlt, Hle.
  cbn [exceeds qval default from_option id] in *.
  destruct (@js_lt Exact.number (Some qx) (Some qz)) eqn:Hcmp.
  - apply exact_lt in Hcmp. exists (m1 ++ x :: m2), z, [].
    rewrite Hm, Hv, Hz. cbn [qval default from_option id].
    split_and!; [done..| |intros y Hy; by apply elem_of_nil in Hy].
    intros y [Hy|[->|Hy]%elem_of_cons]%elem_of_app.
    + eapply Qlt_trans; [by apply Hlt|done].
    + by rewrite Hx.
    + eapply Qle_lt_trans; [by apply Hle|done].
  - exists m1, x, (m2 ++ [z]). rewrite Hm, Hv, Hx. cbn [qval default from_option id].
    split_and!; [by rewrite <-app_assoc|done..|].
    intros y [Hy|Hy%list_elem_of_singleton]%elem_of_app; [by apply Hle|subst y].
    rewrite Hz. cbn [qval default from_option id]. apply Qnot_lt_le.
    intros Hlt'%exact_lt. congruence.
Qed.

(** And the first entry with the least average. *)
Lemma least_first_lowest (m : list (string * DomainTotal)) :
  Forall (λ y, is_Some (entry_av y)) m → m ≠ [] →
  ∃ m1 x m2,
    m = m1 ++ x :: m2
    ∧ least (domain_extremes m) = Some x.1
    ∧ leastVal (domain_extremes m) = Some (entry_av x)
    ∧ (∀ y, y ∈ m1 → (qval (entry_av x) < qval (entry_av y))%Q)
    ∧ (∀ y, y ∈ m2 → (qval (entry_av x) <= qval (entry_av y))%Q).
Proof.
  induction m as [|z m IH] using rev_ind; [done|]. intros Hfin _.
  apply Forall_app in Hfin as [Hfin [[qz Hz] _]%Forall_cons].
  destruct (extremes_step_least (domain_extremes m) z) as [Hm Hv].
  rewrite <-domain_extremes_snoc in Hm, Hv.
  destruct (decide (m = [])) as [->|Hne].
  { exists [], z, []. rewrite Hm, Hv, Hz, undercuts_initial.
    split_and!; [done..| |]; intros y Hy; by apply elem_of_nil in Hy. }
  destruct (IH Hfin Hne) as (m1 & x & m2 & -> & Hleast & Hval & Hlt & Hle).
  rewrite Hleast in Hm. rewrite Hval in Hm, Hv.
  apply Forall_app in Hfin as [_ [[qx Hx] _]%Forall_cons].
  rewrite Hz, Hx in Hm, Hv. rewrite Hx in Hlt, Hle.
  cbn [undercuts qval default from_option id] in *.
  destruct (@js_lt Exact.number (Some qz) (Some qx)) eqn:Hcmp.
  - apply exact_lt in Hcmp. exists (m1 ++ x :: m2), z, [].
    rewrite Hm, Hv, Hz. cbn [qval default from_option id].
    split_and!; [done..| |intros y Hy; by apply elem_of_nil in Hy].
    intros y [Hy|[->|Hy]%elem_of_cons]%elem_of_app.
    + eapply Qlt_trans; [done|by apply Hlt].
    + by rewrite Hx.
    + eapply Qlt_le_trans; [done|by apply Hle].
  - exists m1, x, (m2 ++ [z]). rewrite Hm, Hv, Hx. cbn [qval default from_option id].
    split_and!; [by rewrite <-app_assoc|done..|].
    intros y [Hy|Hy%list_elem_of_singleton]%elem_of_app; [by apply Hle|subst y].
    rewrite Hz. cbn [qval default from_option id]. apply Qnot_lt_le.
    intros Hlt'%exact_lt. congruence.
Qed.

(** The average of a domain that has records is their mean surprise
    score. *)
Lemma entry_av_mean (derived : list DerivedDecision) k :
  k ∈ (λ d, decision_type (decision d)) <$> derived →
  ∃ q, entry_av (domain_entry derived k) = Some q
       ∧ (q == mean_surprise (of_domain k derived))%Q.
Proof.
  intros (d & Hk & Hd)%list_elem_of_fmap. rewrite entry_av_domain. unfold avg.
  apply exact_mean; [|apply surprise_finite].
  intros Hnil. assert (d ∈ of_domain k derived) as Hin.
  { unfold of_domain. by apply list_elem_of_filter. }
  rewrite Hnil in Hin. by apply elem_of_nil in Hin.
Qed.

End surprise_exact.

Section surprise_domains_proofs.
#[local] Existing Instance Exact.number.

Lemma domainMap_finite (derived : list (@DerivedDecision Exact.number)) :
  Forall (λ y, is_Some (entry_av y)) (domainMap derived).
Proof.
  rewrite domainMap_entries. apply Forall_fmap, Forall_forall.
  intros k Hk. rewrite first_seen_elem_of in Hk. cbn [compose].
  destruct (entry_av_mean derived k Hk) as (q & -> & _). done.
Qed.

(** The first record of a domain. *)
Lemma first_record (derived : list (@DerivedDecision Exact.number)) k :
  k ∈ (λ d, decision_type (decision d)) <$> derived →
  ∃ l1 d l2, derived = l1 ++ d :: l2 ∧ decision_type (decision d) = k
             ∧ k ∉ (λ d, decision_type (decision d)) <$> l1.
Proof.
  intros (t1 & t2 & Heq & Hk)%list_elem_of_split_l.
  apply fmap_app_inv in Heq as (l1 & l' & -> & Heq & ->).
  symmetry in Heq. apply fmap_cons_inv in Heq as (d & l2 & -> & -> & ->).
  by exists l1, d, l2.
Qed.

(** The keys of [domainMap] before the key [k] are the domains seen
    before the first record of [k]. *)
Lemma keys_before (l1 l2 : list (@DerivedDecision Exact.number)) d K1 K2 :
  let types := fmap (M:=list) (λ d, decision_type (decision d)) in
  decision_type (decision d) ∉ types l1 →
  first_seen (types (l1 ++ d :: l2)) = K1 ++ decision_type (decision d) :: K2 →
  K1 = first_seen (types l1).
Proof.
  intros types Hk Heq. symmetry.
  pose proof (first_seen_NoDup (types (l1 ++ d :: l2))) as Hnd.
  unfold types in *. rewrite (assoc_L _ l1 [d] l2 : l1 ++ d :: l2 = (l1 ++ [d]) ++ l2) in Heq, Hnd.
  rewrite fmap_app in Heq, Hnd.
  destruct (first_seen_app ((λ d, decision_type (decision d)) <$> l1 ++ [d])
              ((λ d, decision_type (decision d)) <$> l2)) as [more Hmore].
  rewrite Hmore in Heq, Hnd. rewrite fmap_snoc, first_seen_snoc in Heq, Hnd.
  rewrite decide_False in Heq, Hnd by by rewrite first_seen_elem_of.
  rewrite <-!app_assoc in Heq, Hnd. cbn [app] in Heq, Hnd.
  by eapply NoDup_split_unique.
Qed.

(** On exact arithmetic, the surprise summary of a non-empty list of
    derived pairs reports the same average as the baseline; its most
    surprising domain is the decision type with the highest mean surprise
    score, and its least surprising domain the one with the lowest; among
    domains with equal means the one reviewed first is reported. *)
Theorem surprise_domains (derived : list (@DerivedDecision Exact.number)) :
  derived ≠ [] →
  let s := surpriseInsight derived in
  averageSurpriseScore s = avgSurprise (computeBaselines derived)
  ∧ ∃ hi lo,
      mostSurprisedDomain s = Some hi ∧ leastSurprisedDomain s = Some lo
      ∧ first_highest derived hi ∧ first_lowest derived lo.
Proof.
  intros Hne. cbv zeta. split.
  { unfold surpriseInsight, computeBaselines. cbv zeta.
    rewrite decide_False by (by destruct derived). done. }
  unfold surpriseInsight. cbv zeta.
  cbn [mostSurprisedDomain leastSurprisedDomain].
  pose proof (domainMap_finite derived) as Hfin.
  assert (domainMap derived ≠ []) as Hm.
  { rewrite domainMap_entries. intros Hnil%fmap_nil_inv.
    destruct derived as [|d l]; [done|].
    assert (decision_type (decision d) ∈ first_seen ((λ d, decision_type (decision d)) <$> d :: l))
      as Hin by (apply first_seen_elem_of; left).
    rewrite Hnil in Hin. by apply elem_of_nil in Hin. }
  assert (∀ k, k ∈ first_seen ((λ d, decision_type (decision d)) <$> derived) →
            (qval (entry_av (domain_entry derived k))
             == mean_surprise (of_domain k derived))%Q) as Hmean.
  { intros k Hk. rewrite first_seen_elem_of in Hk.
    by destruct (entry_av_mean derived k Hk) as (q & -> & ?). }
  assert (∀ x l1 l2, x ∈ l1 ++ l2 →
            derived = l1 ++ l2 →
            decision_type (decision x)
            ∈ first_seen ((λ d, decision_type (decision d)) <$> derived)) as Hseen.
  { intros x l1 l2 Hx ->. apply first_seen_elem_of, list_elem_of_fmap. by exists x. }
  destruct (most_first_highest _ Hfin Hm) as (m1 & x & m2 & Hsplit & Hmost & _ & Hlt & Hle).
  destruct (least_first_lowest _ Hfin Hm)
    as (n1 & y & n2 & Hsplit' & Hleast & _ & Hlt' & Hle').
  exists x.1, y.1. split_and!; [done..| |].
  - rewrite domainMap_entries in Hsplit.
    apply fmap_app_inv in Hsplit as (K1 & K' & -> & Hsplit & HK).
    symmetry in Hsplit. apply fmap_cons_inv in Hsplit as (k & K2 & -> & -> & ->).
    cbn [fst domain_entry].
    assert (k ∈ first_seen ((λ d, decision_type (decision d)) <$> derived)) as Hk.
    { rewrite HK. apply elem_of_app. right. left. }
    destruct (first_record derived k) as (l1 & d & l2 & -> & Hd & Hfirst).
    { by apply first_seen_elem_of. }
    subst k. pose proof (keys_before _ _ _ _ _ Hfirst HK) as ->.
    exists l1, d, l2. split_and!; [done..| |].
    + intros z Hz. rewrite <-!Hmean.
      * apply Hlt, list_elem_of_fmap. eexists. split; [done|].
        apply first_seen_elem_of, list_elem_of_fmap. by exists z.
      * done.
      * apply (Hseen z l1 (d :: l2)); [|done]. apply elem_of_app. by left.
    + intros z Hz.
      assert (decision_type (decision z)
              ∈ first_seen ((λ d, decision_type (decision d)) <$> l1 ++ d :: l2)) as Hzk.
      { apply (Hseen z l1 (d :: l2)); [|done]. apply elem_of_app. right. by right. }
      rewrite <-!Hmean by done. rewrite HK in Hzk.
      apply elem_of_app in Hzk as [Hzk|[Hzk|Hzk]%elem_of_cons].
      * apply Qlt_le_weak, Hlt, list_elem_of_fmap. by eexists.
      * rewrite Hzk. apply Qle_refl.
      * apply Hle, list_elem_of_fmap. by eexists.
  - rewrite domainMap_entries in Hsplit'.
    apply fmap_app_inv in Hsplit' as (K1 & K' & -> & Hsplit' & HK).
    symmetry in Hsplit'. apply fmap_cons_inv in Hsplit' as (k & K2 & -> & -> & ->).
    cbn [fst domain_entry].
    assert (k ∈ first_seen ((λ d, decision_type (decision d)) <$> derived)) as Hk.
    { rewrite HK. apply elem_of_app. right. left. }
    destruct (first_record derived k) as (l1 & d & l2 & -> & Hd & Hfirst).
    { by apply first_seen_elem_of. }
    subst k. pose proof (keys_before _ _ _ _ _ Hfirst HK) as ->.
    exists l1, d, l2. split_and!; [done..| |].
    + intros z Hz. rewrite <-!Hmean.
      * apply Hlt', list_elem_of_fmap. eexists. split; [done|].
        apply first_seen_elem_of, list_elem_of_fmap. by exists z.
      * apply (Hseen z l1 (d :: l2)); [|done]. apply elem_of_app. by left.
      * done.
    + intros z Hz.
      assert (decision_type (decision z)
              ∈ first_seen ((λ d, decision_type (decision d)) <$> l1 ++ d :: l2)) as Hzk.
      { apply (Hseen z l1 (d :: l2)); [|done]. apply elem_of_app. right. by right. }
      rewrite <-!Hmean by done. rewrite HK in Hzk.
      apply elem_of_app in Hzk as [Hzk|[Hzk|Hzk]%elem_of_cons].
      * apply Qlt_le_weak, Hlt', list_elem_of_fmap. by eexists.
      * rewrite Hzk. apply Qle_refl.
      * apply Hle', list_elem_of_fmap. by eexists.
Qed.

End surprise_domains_proofs.

Lemma surprise_domains_witness :
  first_highest (@derive Exact.number domain_decisions domain_reviews) "health"
  ∧ first_lowest (@derive Exact.number domain_decisions domain_reviews) "work".
Proof.
  destruct (surprise_domains (@derive Exact.number domain_decisions domain_reviews))
    as (_ & hi & lo & Hhi & Hlo & Hfirst & Hlast).
  - intros Heq%(f_equal length). vm_compute in Heq. lia.
  - vm_compute in Hhi, Hlo. by simplify_eq.
Defined.

(** ** The legacy summaries: average confidence *)

Lemma Qsum_bounds (l : list Q) (a b : Q) :
  Forall (λ q, a <= q <= b)%Q l →
  (inject_Z (Z.of_nat (length l)) * a <= Qsum l
   ∧ Qsum l <= inject_Z (Z.of_nat (length l)) * b)%Q.
Proof.
  induction 1 as [|q l [Ha Hb] _ [IHa IHb]].
  - unfold Qsum. cbn [foldr length]. change (inject_Z (Z.of_nat 0)) with 0%Q. split; lra.
  - unfold Qsum in *. cbn [foldr length].
    rewrite Nat2Z.inj_succ, <-Z.add_1_r, inject_Z_plus.
    change (inject_Z 1) with 1%Q. split; lra.
Qed.

Lemma Qmean_bounds (l : list Q) (a b : Q) :
  l ≠ [] → Forall (λ q, a <= q <= b)%Q l → (a <= Qmean l <= b)%Q.
Proof.
  intros Hne [Ha Hb]%Qsum_bounds. unfold Qmean.
  assert (0 < inject_Z (Z.of_nat (length l)))%Q as Hpos.
  { change 0%Q with (inject_Z 0). rewrite <-Zlt_Qlt. destruct l; [done|]. cbn. lia. }
  split.
  - apply Qle_shift_div_l; [done|]. lra.
  - apply Qle_shift_div_r; [done|]. lra.
Qed.

(** On exact arithmetic, the average confidence of the confidence summary
    is the mean confidence of the derived pairs rounded to the nearest
    whole number, a half going up; it lies between the least and the
    greatest confidence. *)
Theorem average_confidence (derived : list (@DerivedDecision Exact.number)) :
  derived ≠ [] →
  ∃ k : Z,
    averageConfidence (confidenceInsight derived) = Some (inject_Z k)
    ∧ (let mean := Qmean ((λ d, inject_Z (confidence (decision d))) <$> derived) in
       inject_Z k - (1 # 2) <= mean ∧ mean < inject_Z k + (1 # 2))%Q
    ∧ ∀ lo hi,
        Forall (λ d, lo ≤ confidence (decision d) ≤ hi) derived → lo ≤ k ≤ hi.
Proof.
  intros Hne. unfold confidenceInsight. cbv zeta.
  destruct (calibration_counts derived) as [[w o] u]. cbn [averageConfidence].
  destruct (exact_mean (λ d, of_int (confidence (decision d))) derived Hne)
    as (m & -> & Hm); [by apply Forall_true|].
  rewrite exact_Math_round. cbn [qval default from_option id of_int Exact.number] in Hm.
  exists (Qfloor (m + (1 # 2))). split; [done|].
  pose proof (Qfloor_le (m + (1 # 2))) as Hlo.
  pose proof (Qlt_floor (m + (1 # 2))) as Hhi.
  rewrite inject_Z_plus in Hhi. change (inject_Z 1) with 1%Q in Hhi.
  split; [cbv zeta; rewrite <-Hm; split; lra|].
  intros lo hi Hall.
  assert (inject_Z lo <= m ∧ m <= inject_Z hi)%Q as [Hl Hh].
  { rewrite Hm. apply Qmean_bounds.
    - by intros ?%fmap_nil_inv.
    - apply Forall_fmap. eapply Forall_impl; [done|].
      intros d [? ?]. cbn [compose]. by rewrite <-!Zle_Qle. }
  split.
  - apply Z.lt_succ_r. rewrite Zlt_Qlt, <-Z.add_1_r, inject_Z_plus.
    change (inject_Z 1) with 1%Q. lra.
  - apply Z.lt_succ_r. rewrite Zlt_Qlt, <-Z.add_1_r, inject_Z_plus.
    change (inject_Z 1) with 1%Q. lra.
Qed.

Lemma average_confidence_witness :
  averageConfidence
    (confidenceInsight (@derive Exact.number uniform_decisions uniform_reviews))
  = Some (inject_Z 90).
Proof.
  destruct (average_confidence (@derive Exact.number uniform_decisions uniform_reviews))
    as (k & -> & _ & Hk).
  - intros Heq%(f_equal length). vm_compute in Heq. lia.
  - do 2 f_equal. apply Z.le_antisymm; apply (Hk 90 90);
      repeat constructor; vm_compute; congruence.
Defined.

(** ** The cards as a whole *)

Section card_ids.
Context `{JSNumber}.

Lemma segment_cards_ids derived bl :
  card_id <$> segment_cards derived bl `sublist_of` segment_id <$> candidates.
Proof.
  unfold segment_cards. induction candidates as [|c l IH]; [constructor|].
  cbn [omap list_omap fmap list_fmap].
  destruct (segment_card derived bl c) as [card|] eqn:Hcard.
  - cbn [fmap list_fmap]. rewrite (segment_card_id _ _ _ _ Hcard). by constructor.
  - by constructor.
Qed.

Lemma mineSegments_ids_NoDup derived bl :
  NoDup (card_id <$> mineSegments derived bl).
Proof.
  rewrite mineSegments_unfold.
  eapply sublist_NoDup; [|apply fmap_sublist, sublist_take].
  rewrite js_sort_Permutation.
  eapply sublist_NoDup; [apply segment_id_NoDup|apply segment_cards_ids].
Qed.

Lemma mineSegments_id_prefix derived bl card :
  card ∈ mineSegments derived bl → ∃ rest, card_id card = "seg-" +:+ rest.
Proof.
  intros Hin%mineSegments_subseteq. unfold segment_cards in Hin.
  apply list_elem_of_omap in Hin as (c & _ & Hcard).
  rewrite (segment_card_id _ _ _ _ Hcard). by eexists.
Qed.

Lemma analyzeTrends_ids derived :
  card_id <$> analyzeTrends derived
  `sublist_of` ["trend-outcome"; "trend-surprise"; "trend-calibration"].
Proof.
  rewrite analyzeTrends_unfold. cbv zeta. case_decide; [by repeat constructor|].
  rewrite !trend_card_unfold.
  repeat case_match; cbn; repeat (constructor || done).
Qed.

End card_ids.

Lemma card_ids_apart (a b c : list string) :
  NoDup a → NoDup b → NoDup c →
  (∀ i, i ∈ a → i = "calibration-summary") →
  (∀ i, i ∈ b → ∃ rest, i = "seg-" +:+ rest) →
  (∀ i, i ∈ c → i ∈ ["trend-outcome"; "trend-surprise"; "trend-calibration"]) →
  NoDup (a ++ b ++ c).
Proof.
  intros Ha Hb Hc Hai Hbi Hci. apply NoDup_app. split_and!; [done| |].
  - intros i ->%Hai [[rest Hs]%Hbi|Ht%Hci]%elem_of_app; [discriminate|].
    rewrite !elem_of_cons, elem_of_nil in Ht. by destruct Ht as [|[|[|]]].
  - apply NoDup_app. split_and!; [done| |done].
    intros i [rest ->]%Hbi Ht%Hci.
    rewrite !elem_of_cons, elem_of_nil in Ht. by destruct Ht as [|[|[|]]].
Qed.

(** [generateInsights] never returns more than 10 cards, and never two
    cards with the same id. *)
Theorem cards_distinct `{JSNumber} (ds : list Decision) (rs : list Review) :
  NoDup (card_id <$> cards (generateInsights ds rs))
  ∧ (length (cards (generateInsights ds rs)) ≤ 10)%nat.
Proof.
  rewrite generateInsights_cards. cbv zeta.
  set (derived := derive ds rs). set (bl := computeBaselines derived).
  assert (NoDup (card_id <$> analyzeTrends derived)) as Htrends.
  { eapply sublist_NoDup; [|apply analyzeTrends_ids].
    apply (bool_decide_unpack _). by vm_compute. }
  assert (∀ i, i ∈ card_id <$> analyzeTrends derived →
               i ∈ ["trend-outcome"; "trend-surprise"; "trend-calibration"]) as Hti.
  { intros i. apply sublist_subseteq, analyzeTrends_ids. }
  assert (∀ i, i ∈ card_id <$> mineSegments derived bl →
               ∃ rest, i = "seg-" +:+ rest) as Hsi.
  { intros i (card & -> & Hin)%list_elem_of_fmap. by eapply mineSegments_id_prefix. }
  assert (length (analyzeTrends derived) ≤ 3)%nat as Hlen.
  { rewrite <-(length_fmap card_id). apply (sublist_length _ _ (analyzeTrends_ids _)). }
  pose proof (mineSegments_length derived bl) as Hlen'.
  pose proof (mineSegments_ids_NoDup derived bl) as Hsegs.
  split.
  - rewrite !fmap_app.
    apply card_ids_apart;
      repeat case_decide; cbn [fmap list_fmap];
      try done; try apply NoDup_nil_2; try apply NoDup_singleton;
      try (intros i Hi; by apply elem_of_nil in Hi).
    all: by intros i ->%list_elem_of_singleton.
  - rewrite !length_app. repeat case_decide; cbn [length]; lia.
Qed.

(** ** The trend analyzer looks at the most recent records only *)

(** The trend cards of a list of derived pairs are those of its last
    [2 * window] pairs, where [window = min(10, floor(n / 2))]: at most
    the 20 most recent pairs count, and of an odd number of pairs below
    20 the oldest is ignored. *)
Theorem trends_recent_only `{JSNumber} (derived : list DerivedDecision) :
  let n := length derived in
  let window := Nat.min 10 (n / 2) in
  analyzeTrends derived = analyzeTrends (drop (n - 2 * window) derived)
  ∧ length (drop (n - 2 * window) derived) = (2 * window)%nat
  ∧ (2 * window ≤ 20)%nat.
Proof.
  cbv zeta. set (n := length derived). set (w := Nat.min 10 (n / 2)).
  assert (2 * w ≤ n)%nat as Hw.
  { pose proof (Nat.div_mod_eq n 2). unfold w. lia. }
  assert (length (drop (n - 2 * w) derived) = (2 * w)%nat) as Hlen.
  { rewrite length_drop. fold n. lia. }
  split_and!; [|done|unfold w; lia].
  rewrite (analyzeTrends_unfold derived), (analyzeTrends_unfold (drop (n - 2 * w) derived)).
  cbv zeta. rewrite Hlen. fold n. fold w.
  replace (Nat.min 10 (2 * w / 2)) with w.
  2:{ rewrite Nat.mul_comm, Nat.div_mul by done. unfold w. lia. }
  replace (2 * w - 2 * w)%nat with 0%nat by lia.
  rewrite drop_drop, drop_0.
  replace (n - 2 * w + (2 * w - w))%nat with (n - w)%nat by lia.
  done.
Qed.

(** ** Ranges of the reported values *)

Lemma Qred_inject_Z z : Qred (inject_Z z) = inject_Z z.
Proof.
  unfold Qred, inject_Z.
  pose proof (Z.ggcd_gcd z 1) as Hg. pose proof (Z.ggcd_correct_divisors z 1) as Hd.
  cbn [Qnum Qden] in *.
  destruct (Z.ggcd z 1) as [g [aa bb]]. cbn [fst snd] in *.
  rewrite Z.gcd_1_r in Hg. subst g. destruct Hd as [-> Hb].
  f_equal; [lia|]. assert (bb = 1) as -> by lia. done.
Qed.

Lemma sorted_lookup_le (l : list Z) (i j : nat) (a b : Z) :
  StronglySorted Z.le l → (i ≤ j)%nat → l !! i = Some a → l !! j = Some b → a ≤ b.
Proof.
  intros Hs. revert i j. induction Hs as [|x l Hs IH Hx]; intros i j Hij Ha Hb.
  - done.
  - destruct i as [|i], j as [|j]; simplify_eq/=; [lia| |lia|].
    + rewrite Forall_forall in Hx. apply Hx. by eapply list_elem_of_lookup_2.
    + apply (IH i j); [lia|done..].
Qed.

(** Rounding to 2 decimals keeps a value between two bounds that are whole
    numbers of hundredths. *)
Lemma half_up_2dp_bounds (q : Q) (a b : Z) :
  (inject_Z a / 100 <= q)%Q → (q <= inject_Z b / 100)%Q →
  (inject_Z a / 100 <= half_up_2dp q ∧ half_up_2dp q <= inject_Z b / 100)%Q.
Proof.
  intros Ha Hb. unfold half_up_2dp.
  pose proof (Qfloor_le (q * 100 + (1 # 2))) as Hlo.
  pose proof (Qlt_floor (q * 100 + (1 # 2))) as Hhi.
  rewrite inject_Z_plus in Hhi. change (inject_Z 1) with 1%Q in Hhi.
  set (k := Qfloor (q * 100 + (1 # 2))) in *.
  unfold Qdiv in *. change (/ 100)%Q with (1 # 100)%Q in *.
  assert (a ≤ k).
  { apply Z.lt_succ_r. rewrite Zlt_Qlt, <-Z.add_1_r, inject_Z_plus.
    change (inject_Z 1) with 1%Q. lra. }
  assert (k ≤ b).
  { apply Z.lt_succ_r. rewrite Zlt_Qlt, <-Z.add_1_r, inject_Z_plus.
    change (inject_Z 1) with 1%Q. lra. }
  split.
  - apply Qmult_le_compat_r; [by rewrite <-Zle_Qle|done].
  - apply Qmult_le_compat_r; [by rewrite <-Zle_Qle|done].
Qed.

Section exact_ranges.
#[local] Existing Instance Exact.number.

Lemma exact_sub_int (a b : Z) :
  (Some (inject_Z a) - Some (inject_Z b))%js = Some (inject_Z (a - b)).
Proof.
  rewrite exact_sub. f_equal.
  rewrite (Qred_complete _ (inject_Z (a - b))); [apply Qred_inject_Z|].
  unfold Z.sub. by rewrite inject_Z_plus, inject_Z_opp.
Qed.

Lemma js_index_lookup (arr : list Z) (i : nat) (z : Z) :
  arr !! i = Some z → js_index arr (Z.of_nat i) = Some (inject_Z z).
Proof.
  intros Hz. unfold js_index. destruct (Z.ltb_spec (Z.of_nat i) 0); [lia|].
  by rewrite Nat2Z.id, Hz.
Qed.

Lemma sorted_confidence_sorted (derived : list DerivedDecision) :
  StronglySorted Z.le (sorted_confidence derived).
Proof. apply (js_sort_by_key_sorted (λ x, x)). Qed.

Lemma sorted_confidence_range (derived : list DerivedDecision) lo hi i z :
  Forall (λ d, lo ≤ confidence (decision d) ≤ hi) derived →
  sorted_confidence derived !! i = Some z → lo ≤ z ≤ hi.
Proof.
  intros Hall Hz%list_elem_of_lookup_2. unfold sorted_confidence in Hz.
  rewrite js_sort_elem_of in Hz. apply list_elem_of_fmap in Hz as (d & -> & Hd).
  rewrite Forall_forall in Hall. by apply Hall.
Qed.

(** On exact arithmetic, the median confidence and the interquartile
    range of the calibration summary are whole numbers; the median lies
    between the least and the greatest confidence, and the range is not
    negative and at most their difference. *)
Theorem calibration_summary_values (derived : list (@DerivedDecision Exact.number)) :
  derived ≠ [] →
  ∃ med spread : Z,
    medianConfidence derived = Some (inject_Z med)
    ∧ iqr derived = Some (inject_Z spread)
    ∧ 0 ≤ spread
    ∧ ∀ lo hi,
        Forall (λ d, lo ≤ confidence (decision d) ≤ hi) derived →
        lo ≤ med ≤ hi ∧ spread ≤ hi - lo.
Proof.
  intros Hne. unfold medianConfidence, iqr. cbv zeta.
  pose proof (sorted_confidence_length derived) as Hlen.
  pose proof (sorted_confidence_sorted derived) as Hsorted.
  assert (0 < length derived)%nat as Hpos by (destruct derived; simpl; [done|lia]).
  set (arr := sorted_confidence derived) in *.
  set (n := length arr) in *.
  assert (0 ≤ (Z.of_nat n - 1) / 4 ≤ (Z.of_nat n - 1) * 3 / 4
          ∧ (Z.of_nat n - 1) * 3 / 4 < Z.of_nat n) as (Hq1 & Hq3).
  { split; [split|].
    - apply Z.div_pos; lia.
    - apply Z.div_le_mono; lia.
    - apply Z.div_lt_upper_bound; lia. }
  destruct (lookup_lt_is_Some_2 arr (Z.to_nat ((Z.of_nat n - 1) / 4))) as [a Ha];
    [fold n; lia|].
  destruct (lookup_lt_is_Some_2 arr (Z.to_nat ((Z.of_nat n - 1) * 3 / 4))) as [b Hb];
    [fold n; lia|].
  rewrite <-(Z2Nat.id ((Z.of_nat n - 1) / 4)) by lia.
  rewrite <-(Z2Nat.id ((Z.of_nat n - 1) * 3 / 4)) by lia.
  rewrite (js_index_lookup _ _ _ Ha), (js_index_lookup _ _ _ Hb), exact_sub_int.
  assert (a ≤ b) as Hab.
  { eapply (sorted_lookup_le arr); [done| |done..]. lia. }
  pose proof (Nat.div_mod_eq n 2) as Hdiv.
  pose proof (Nat.mod_upper_bound n 2) as Hmod.
  case_decide as Hodd.
  - destruct (lookup_lt_is_Some_2 arr (n / 2)) as [m Hm]; [fold n; lia|].
    rewrite (js_index_lookup _ _ _ Hm).
    exists m, (b - a). split_and!; [done..|lia|].
    intros lo hi Hall.
    pose proof (sorted_confidence_range derived lo hi _ _ Hall Hm).
    pose proof (sorted_confidence_range derived lo hi _ _ Hall Ha).
    pose proof (sorted_confidence_range derived lo hi _ _ Hall Hb). lia.
  - destruct (lookup_lt_is_Some_2 arr (n / 2 - 1)) as [x Hx]; [fold n; lia|].
    destruct (lookup_lt_is_Some_2 arr (n / 2)) as [y Hy]; [fold n; lia|].
    replace (Z.of_nat (n / 2) - 1) with (Z.of_nat (n / 2 - 1)) by lia.
    rewrite (js_index_lookup _ _ _ Hx), (js_index_lookup _ _ _ Hy).
    rewrite exact_add, exact_of_int, exact_div by done. rewrite exact_Math_round.
    eexists _, (b - a). split_and!; [done..|lia|].
    intros lo hi Hall.
    pose proof (sorted_confidence_range derived lo hi _ _ Hall Hx) as Hxr.
    pose proof (sorted_confidence_range derived lo hi _ _ Hall Hy) as Hyr.
    pose proof (sorted_confidence_range derived lo hi _ _ Hall Ha).
    pose proof (sorted_confidence_range derived lo hi _ _ Hall Hb).
    split; [|lia].
    set (q := Qred (Qred (inject_Z x + inject_Z y) / inject_Z 2)).
    assert (q == (inject_Z x + inject_Z y) / 2)%Q as Hq.
    { unfold q. by rewrite !Qred_correct. }
    pose proof (Qfloor_le (q + (1 # 2))) as Hlo.
    pose proof (Qlt_floor (q + (1 # 2))) as Hhi.
    rewrite inject_Z_plus in Hhi. change (inject_Z 1) with 1%Q in Hhi.
    assert (inject_Z lo <= inject_Z x ∧ inject_Z lo <= inject_Z y
            ∧ inject_Z x <= inject_Z hi ∧ inject_Z y <= inject_Z hi)%Q
      as (? & ? & ? & ?) by (rewrite <-!Zle_Qle; lia).
    unfold Qdiv in Hq. change (/ 2)%Q with (1 # 2)%Q in Hq.
    split.
    + apply Z.lt_succ_r. rewrite Zlt_Qlt, <-Z.add_1_r, inject_Z_plus.
      change (inject_Z 1) with 1%Q. lra.
    + apply Z.lt_succ_r. rewrite Zlt_Qlt, <-Z.add_1_r, inject_Z_plus.
      change (inject_Z 1) with 1%Q. lra.
Qed.

End exact_ranges.

Lemma calibration_summary_values_witness :
  medianConfidence (@derive Exact.number uniform_decisions uniform_reviews)
  = Some (inject_Z 90)
  ∧ iqr (@derive Exact.number uniform_decisions uniform_reviews) = Some (inject_Z 0).
Proof.
  destruct (calibration_summary_values
              (@derive Exact.number uniform_decisions uniform_reviews))
    as (med & spread & -> & -> & Hpos & Hrange).
  - intros Heq%(f_equal length). vm_compute in Heq. lia.
  - destruct (Hrange 90 90) as [Hm Hs].
    { repeat constructor; vm_compute; congruence. }
    split; do 2 f_equal; lia.
Defined.

Section baseline_ranges_proofs.
#[local] Existing Instance Exact.number.

(** The averages of the baseline, as rounded means. *)
Lemma computeBaselines_rounded (derived : list DerivedDecision) :
  derived ≠ [] → Forall finite_pair derived →
  ∃ o s c : Q,
    avgOutcomeScore (computeBaselines derived) = Some o
    ∧ avgSurprise (computeBaselines derived) = Some s
    ∧ avgCalibrationError (computeBaselines derived) = Some c
    ∧ (o == half_up_2dp (Qmean ((λ d, qval (outcomeScore d)) <$> derived)))%Q
    ∧ (s == half_up_2dp
              (Qmean ((λ d, inject_Z (surprise_score (review d))) <$> derived)))%Q
    ∧ (c == half_up_2dp (Qmean ((λ d, qval (calibrationError d)) <$> derived)))%Q.
Proof.
  intros Hne Hfin. unfold computeBaselines.
  rewrite decide_False by by destruct derived.
  cbn [avgOutcomeScore avgSurprise avgCalibrationError].
  destruct (exact_mean outcomeScore derived Hne) as (mo & -> & Hmo).
  { eapply Forall_impl; [done|]. by intros ? [??]. }
  destruct (exact_mean (λ d, of_int (surprise_score (review d))) derived Hne)
    as (ms & -> & Hms); [apply surprise_finite|].
  destruct (exact_mean calibrationError derived Hne) as (mc & -> & Hmc).
  { eapply Forall_impl; [done|]. by intros ? [??]. }
  destruct (exact_round mo) as (o & -> & Ho), (exact_round ms) as (s & -> & Hs),
    (exact_round mc) as (c & -> & Hc).
  exists o, s, c. split_and!; [done..| | |].
  - rewrite Ho. unfold half_up_2dp. by rewrite Hmo.
  - rewrite Hs. unfold half_up_2dp. by rewrite Hms.
  - rewrite Hc. unfold half_up_2dp. by rewrite Hmc.
Qed.

(** The outcome score of a pair is between -2 and 2 and its calibration
    error between 0 and 0.9. *)
Lemma derive_one_ranges d r :
  plain_key (expectation_comparison r) →
  (-2 <= qval (outcomeScore (derive_one d r)) <= 2
   ∧ 0 <= qval (calibrationError (derive_one d r)) <= 9 # 10)%Q.
Proof.
  intros Hplain. cbn [derive_one outcomeScore calibrationError].
  destruct (@outcome_score_cases Exact.number (expectation_comparison r))
    as [Hk|[(Hin & _)|(_ & -> & _)]]; [|done|].
  - rewrite !elem_of_cons, elem_of_nil in Hk.
    destruct Hk as [->|[->|[->|[->|[->|[]]]]]];
      destruct (confBand (confidence d)); vm_compute; intuition discriminate.
  - destruct (confBand (confidence d)); vm_compute; intuition discriminate.
Qed.

Lemma rounded_mean_bounds {A} (f : A → Q) (l : list A) (a b : Z) (q : Q) :
  l ≠ [] →
  Forall (λ x, inject_Z a / 100 <= f x ∧ f x <= inject_Z b / 100)%Q l →
  (q == half_up_2dp (Qmean (f <$> l)))%Q →
  (inject_Z a / 100 <= q ∧ q <= inject_Z b / 100)%Q.
Proof.
  intros Hne Hall ->.
  destruct (Qmean_bounds (f <$> l) (inject_Z a / 100) (inject_Z b / 100)) as [Hlo Hhi].
  - by intros ?%fmap_nil_inv.
  - by apply Forall_fmap.
  - by apply half_up_2dp_bounds.
Qed.

(** On exact arithmetic and for outcome values that do not name an
    inherited member, the averages of the baseline stay within the range
    of what they average: the outcome score within -2 and 2, the
    calibration error within 0 and 0.9, and the surprise score within any
    two whole numbers that bound the surprise scores of the reviews. *)
Theorem baseline_ranges (ds : list Decision) (rs : list Review) :
  Forall (λ r, plain_key (expectation_comparison r)) rs →
  derive ds rs ≠ [] →
  let b := baseline (generateInsights ds rs) in
  ∃ o s c : Q,
    avgOutcomeScore b = Some o ∧ avgSurprise b = Some s
    ∧ avgCalibrationError b = Some c
    ∧ (-2 <= o ∧ o <= 2)%Q ∧ (0 <= c ∧ c <= 9 # 10)%Q
    ∧ ∀ lo hi : Z,
        Forall (λ r, lo ≤ surprise_score r ≤ hi) rs →
        (inject_Z lo <= s ∧ s <= inject_Z hi)%Q.
Proof.
  intros Hplain Hne. cbv zeta. rewrite generateInsights_baseline.
  pose proof (derive_finite ds rs Hplain) as Hfin.
  destruct (computeBaselines_rounded _ Hne Hfin)
    as (o & s & c & -> & -> & -> & Ho & Hs & Hc).
  rewrite Forall_forall in Hplain.
  exists o, s, c. do 3 (split; [done|]). split; [|split].
  - apply (rounded_mean_bounds _ _ (-200) 200 _ Hne) in Ho.
    + change (inject_Z (-200) / 100)%Q with (-200 # 100)%Q in Ho.
      change (inject_Z 200 / 100)%Q with (200 # 100)%Q in Ho.
      destruct Ho. split; lra.
    + apply Forall_forall. intros x (d & r & _ & Hr & _ & ->)%derive_elem_of.
      change (inject_Z (-200) / 100)%Q with (-200 # 100)%Q.
      change (inject_Z 200 / 100)%Q with (200 # 100)%Q.
      destruct (derive_one_ranges d r (Hplain r Hr)) as [[? ?] _]. split; lra.
  - apply (rounded_mean_bounds _ _ 0 90 _ Hne) in Hc.
    + change (inject_Z 0 / 100)%Q with (0 # 100)%Q in Hc.
      change (inject_Z 90 / 100)%Q with (90 # 100)%Q in Hc.
      destruct Hc. split; lra.
    + apply Forall_forall. intros x (d & r & _ & Hr & _ & ->)%derive_elem_of.
      change (inject_Z 0 / 100)%Q with (0 # 100)%Q.
      change (inject_Z 90 / 100)%Q with (90 # 100)%Q.
      destruct (derive_one_ranges d r (Hplain r Hr)) as [_ [? ?]]. split; lra.
  - intros lo hi Hrange. rewrite Forall_forall in Hrange.
    assert (∀ z, inject_Z (z * 100) / 100 == inject_Z z)%Q as Hz.
    { intros z. rewrite inject_Z_mult. change (inject_Z 100) with 100%Q. field. }
    apply (rounded_mean_bounds _ _ (lo * 100) (hi * 100) _ Hne) in Hs.
    + by rewrite !Hz in Hs.
    + apply Forall_forall. intros x (d & r & _ & Hr & _ & ->)%derive_elem_of.
      rewrite !Hz. cbn [derive_one review]. rewrite <-!Zle_Qle. by apply Hrange.
Qed.

End baseline_ranges_proofs.

Lemma baseline_ranges_witness :
  ∃ s : Q,
    avgSurprise (baseline (@generateInsights Exact.number domain_decisions
                             domain_reviews)) = Some s
    ∧ (0 <= s ∧ s <= 30)%Q.
Proof.
  destruct (baseline_ranges domain_decisions domain_reviews)
    as (o & s & c & _ & Hs & _ & _ & _ & Hrange).
  - apply (bool_decide_unpack _). by vm_compute.
  - intros Heq%(f_equal length). vm_compute in Heq. lia.
  - exists s. split; [done|]. apply (Hrange 0 30).
    apply (bool_decide_unpack _). by vm_compute.
Defined.

(** ** The review count and the inputs *)

(** When no two decisions have the same id, the review count does not
    exceed the number of reviews. *)
Theorem review_count_le_reviews `{JSNumber} (ds : list Decision) (rs : list Review) :
  NoDup ((λ d, String_of_id (d_id d)) <$> ds) →
  (ins_reviewCount (generateInsights ds rs) ≤ length rs)%nat.
Proof.
  intros Hnd. rewrite generateInsights_reviewCount, derive_length.
  rewrite <-(length_fmap (λ d, String_of_id (d_id d))).
  rewrite <-(length_fmap decision_id rs).
  apply submseteq_length, NoDup_submseteq.
  - eapply sublist_NoDup; [done|]. apply fmap_sublist, sublist_filter.
  - intros k (d & -> & [Hd _]%list_elem_of_filter)%list_elem_of_fmap.
    unfold has_review in Hd. apply Exists_exists in Hd as (r & Hr & <-).
    apply list_elem_of_fmap. by exists r.
Qed.

Lemma review_count_le_reviews_witness :
  (ins_reviewCount (@generateInsights Exact.number domain_decisions domain_reviews)
   ≤ 4)%nat.
Proof.
  apply (review_count_le_reviews domain_decisions domain_reviews).
  apply (bool_decide_unpack _). by vm_compute.
Defined.

(** When no decision has a matching review (as when there are no
    decisions or no reviews), [generateInsights] returns a review count of
    0, no cards, a baseline of zeros, and none of the four summaries. *)
Theorem nothing_reviewed `{JSNumber} `{!JSInfinity}
    (ds : list Decision) (rs : list Review) :
  Forall (λ d, ¬ has_review rs d) ds →
  generateInsights_legacy ds rs
  = inr {| ins := {| cards := [];
                     baseline := {| reviewCount := 0; avgOutcomeScore := of_int 0;
                                    avgSurprise := of_int 0;
                                    avgCalibrationError := of_int 0 |};
                     ins_reviewCount := 0; minimumReviewsNeeded := 3 |};
           ins_confidence := None; ins_surprise := None; ins_speed := None;
           ins_repeat := None |}.
Proof.
  intros Hnone.
  assert (derive ds rs = []) as Hd.
  { apply length_zero_iff_nil. rewrite derive_length.
    induction Hnone as [|d l Hd _ IH]; [done|].
    by rewrite filter_cons, decide_False. }
  unfold generateInsights_legacy, generateInsights. by rewrite Hd.
Qed.

Lemma nothing_reviewed_witness :
  @generateInsights_legacy Exact.number _ uniform_decisions []
  = @generateInsights_legacy Exact.number _ [] uniform_reviews.
Proof.
  rewrite (nothing_reviewed uniform_decisions []), (nothing_reviewed [] uniform_reviews).
  - reflexivity.
  - constructor.
  - apply (bool_decide_unpack _). by vm_compute.
Defined.

(** ** The strength of a segment card *)

Section exact_strength_proofs.
#[local] Existing Instance Exact.number.




End exact_strength_proofs.


(** ** The insights page *)

(** Once the page has loaded the decisions and reviews, it shows the
    error screen exactly when [generateInsights] raised; otherwise it shows
    the placeholder, asking for 1 to 3 more reviews, when fewer than 3
    decisions have a review, and else all four summary cards in the order
    confidence, surprise, speed, repeat.  It never stays on the loading
    screen and never shows "Unable to load insights". *)
Theorem insights_page `{JSNumber} `{!JSInfinity}
    (ds : list Decision) (rs : list Review) :
  let n := length (derive ds rs) in
  match generateInsights_legacy ds rs with
  | inl err => InsightsView (loadInsights ds rs initial_state) = ErrorMessage err
  | inr r =>
      if decide (n < 3)%nat
      then InsightsView (loadInsights ds rs initial_state)
           = StillForming n (3 - Z.of_nat n)
           ∧ 1 ≤ 3 - Z.of_nat n ≤ 3
      else ∃ c s v p,
             ins_confidence r = Some c ∧ ins_surprise r = Some s
             ∧ ins_speed r = Some v ∧ ins_repeat r = Some p
             ∧ InsightsView (loadInsights ds rs initial_state)
               = HowYouThink n [confidence_card c; surprise_card s; speed_card v;
                                repeat_card p]
  end.
Proof.
  cbv zeta. unfold loadInsights.
  destruct (generateInsights_legacy ds rs) as [err|r] eqn:Hgen; [done|].
  unfold generateInsights_legacy in Hgen. cbv zeta in Hgen.
  unfold GATING_THRESHOLDS.baselineCard in Hgen.
  unfold InsightsView. cbn [st_loading st_error st_insights].
  destruct (Nat.leb_spec 3 (length (derive ds rs))) as [Hle|Hlt].
  - destruct (speedInsight (derive ds rs)) as [|v]; [done|]. simplify_eq.
    cbn [ins ins_reviewCount minimumReviewsNeeded generateInsights
         ins_confidence ins_surprise ins_speed ins_repeat shown app].
    unfold GATING_THRESHOLDS.baselineCard.
    destruct (Nat.ltb_spec (length (derive ds rs)) 3); [lia|].
    rewrite decide_False by lia. by eexists _, _, _, _.
  - simplify_eq.
    cbn [ins ins_reviewCount minimumReviewsNeeded generateInsights].
    unfold GATING_THRESHOLDS.baselineCard.
    destruct (Nat.ltb_spec (length (derive ds rs)) 3); [|lia].
    rewrite decide_True by done. split; [done|lia].
Qed.

(** ** Metrics *)

(** The numeric mapping of the metrics agrees with the outcome score of
    the insights engine on every value except the names of the members an
    object inherits: there the metrics give 0 and the engine gives
    [NaN]. *)
Theorem outcome_mappings_agree `{JSNumber} (key : string) :
  (if decide (plain_key key)
   then outcome_score key = of_int (metrics.expectationToNumeric key)
   else outcome_score key = NaN ∧ metrics.expectationToNumeric key = 0).
Proof.
  unfold plain_key, outcome_score, OUTCOME_SCORE_MAP_get, metrics.expectationToNumeric.
  rewrite OUTCOME_SCORE_MAP_lookup.
  assert (Forall (λ k, k ∉ Object_prototype_names)
            ["much_worse"; "slightly_worse"; "as_expected"; "slightly_better";
             "much_better"]) as Hown.
  { apply (bool_decide_unpack _). by vm_compute. }
  rewrite !Forall_cons in Hown. destruct Hown as (? & ? & ? & ? & ? & _).
  destruct (decide (key = "much_worse")) as [->|?];
    [rewrite decide_True by done; done|].
  destruct (decide (key = "slightly_worse")) as [->|?];
    [rewrite decide_True by done; done|].
  destruct (decide (key = "as_expected")) as [->|?];
    [rewrite decide_True by done; done|].
  destruct (decide (key = "slightly_better")) as [->|?];
    [rewrite decide_True by done; done|].
  destruct (decide (key = "much_better")) as [->|?];
    [rewrite decide_True by done; done|].
  destruct (decide (key ∉ Object_prototype_names)) as [Hplain|Hin].
  - by rewrite bool_decide_eq_false_2.
  - rewrite bool_decide_eq_true_2; [done|]. by apply dec_stable.
Qed.

Section exact_metrics.
#[local] Existing Instance Exact.number.

Lemma reviewed_elem_of ds rs d r :
  (d, r) ∈ metrics.reviewed ds rs → d ∈ ds ∧ r ∈ rs.
Proof.
  intros (d' & Hd & Hr)%list_elem_of_omap.
  destruct (reviewMap rs !! String_of_id (d_id d')) as [r'|] eqn:Hlook; [|done].
  cbn in Hr. simplify_eq. split; [done|]. by eapply reviewMap_lookup_Some.
Qed.

Lemma reviewed_nil ds rs :
  Forall (λ d, ¬ has_review rs d) ds → metrics.reviewed ds rs = [].
Proof.
  induction 1 as [|d ds Hd _ IH]; [done|].
  unfold metrics.reviewed in *. cbn [omap list_omap].
  destruct (reviewMap rs !! String_of_id (d_id d)) as [r|] eqn:Hlook; [|done].
  exfalso. apply Hd, reviewMap_lookup_is_Some. by eexists.
Qed.

(** The mean of numbers between two bounds that enclose 0. *)
Lemma metrics_mean_bounds (arr : list (option Q)) (a b : Q) :
  (a <= 0)%Q → (0 <= b)%Q →
  Forall (λ x, ∃ q, x = Some q ∧ (a <= q ∧ q <= b)%Q) arr →
  ∃ m, metrics.mean arr = Some m ∧ (a <= m ∧ m <= b)%Q.
Proof.
  intros Ha Hb Hall. unfold metrics.mean.
  destruct arr as [|x arr]; [exists 0%Q; by repeat split|].
  change (length (x :: arr) =? 0)%nat with false. cbv iota.
  assert (x :: arr ≠ []) as Hne by done. revert Hne Hall.
  generalize (x :: arr). clear x arr. intros arr Hne Hall.
  destruct (exact_mean (λ x : option Q, x) arr Hne) as (m & Hm & Hmean).
  { eapply Forall_impl; [done|]. intros x (q & -> & _). done. }
  exists m. split; [done|]. rewrite Hmean.
  apply Qmean_bounds; [by intros ?%fmap_nil_inv|]. apply Forall_fmap.
  eapply Forall_impl; [done|]. intros x (q & -> & Hq). done.
Qed.

(** The two sums of the risk-adjusted repeat rate. *)
Lemma risk_sums (pairs : list (Decision * Review)) (wy tw : Q) :
  Forall (λ p, 0 ≤ surprise_score p.2 ≤ 100) pairs →
  (0 <= wy ∧ wy <= tw)%Q →
  ∃ wy' tw',
    foldl metrics.risk_step (Some wy, Some tw) pairs = (Some wy', Some tw')
    ∧ (0 <= wy' ∧ wy' <= tw')%Q
    ∧ (tw + inject_Z (Z.of_nat (length pairs)) <= tw')%Q.
Proof.
  intros Hall. revert wy tw. induction Hall as [|[d r] l Hs _ IH]; intros wy tw [H0 Hle].
  { exists wy, tw. split_and!; [done..|]. cbn [length].
    change (inject_Z (Z.of_nat 0)) with 0%Q. lra. }
  cbn [foldl snd] in *. unfold metrics.risk_step at 2. cbv zeta.
  assert (∃ w, metrics.importanceWeight (importance d) = Some w ∧ (1 <= w)%Q)
    as (w & -> & Hw).
  { unfold metrics.importanceWeight. repeat case_decide; eexists; split; done. }
  assert (∃ p, (of_int 1 - of_int (surprise_score r) / of_int 100)%js = Some p
               ∧ (0 <= p ∧ p <= 1)%Q) as (p & -> & Hp0 & Hp1).
  { rewrite !exact_of_int, exact_div, exact_sub by done. eexists. split; [done|].
    rewrite !Qred_correct.
    assert (inject_Z 0 <= inject_Z (surprise_score r)
            ∧ inject_Z (surprise_score r) <= inject_Z 100)%Q as [? ?]
      by (rewrite <-!Zle_Qle; lia).
    change (inject_Z 0) with 0%Q in *. change (inject_Z 100) with 100%Q in *.
    change (inject_Z 1) with 1%Q.
    unfold Qdiv. change (/ 100)%Q with (1 # 100)%Q. split; lra. }
  rewrite exact_add. case_decide.
  - rewrite exact_mul, exact_add.
    destruct (IH (Qred (wy + Qred (w * p))) (Qred (tw + w)))
      as (wy' & tw' & Hf & Hwy & Htw).
    { rewrite !Qred_correct. split; nra. }
    exists wy', tw'. split; [done|]. split; [done|].
    rewrite Qred_correct in Htw. cbn [length].
    rewrite Nat2Z.inj_succ, <-Z.add_1_r, inject_Z_plus.
    change (inject_Z 1) with 1%Q. lra.
  - destruct (IH wy (Qred (tw + w))) as (wy' & tw' & Hf & Hwy & Htw).
    { rewrite !Qred_correct. split; lra. }
    exists wy', tw'. split; [done|]. split; [done|].
    rewrite Qred_correct in Htw. cbn [length].
    rewrite Nat2Z.inj_succ, <-Z.add_1_r, inject_Z_plus.
    change (inject_Z 1) with 1%Q. lra.
Qed.

(** On exact arithmetic, the outcome ROI of any reviews is between -2 and
    2; the calibration error from confidence is between 0 and 1 when the
    confidences are between 0 and 100; the risk-adjusted repeat rate is a
    whole percentage between 0 and 100 when the surprise scores are
    between 0 and 100; and the last two are 0 when no decision has a
    review. *)
Theorem metrics_ranges (ds : list Decision) (rs : list Review) :
  (∃ q, metrics.outcomeROI rs = Some q ∧ (-2 <= q ∧ q <= 2)%Q)
  ∧ (Forall (λ d, 0 ≤ confidence d ≤ 100) ds →
     ∃ q, metrics.calibrationErrorFromConfidence ds rs = Some q ∧ (0 <= q ∧ q <= 1)%Q)
  ∧ (Forall (λ r, 0 ≤ surprise_score r ≤ 100) rs →
     ∃ k, metrics.riskAdjustedRepeatRate ds rs = Some (inject_Z k) ∧ 0 ≤ k ≤ 100)
  ∧ (Forall (λ d, ¬ has_review rs d) ds →
     metrics.calibrationErrorFromConfidence ds rs = Some 0%Q
     ∧ metrics.riskAdjustedRepeatRate ds rs = Some 0%Q).
Proof.
  split_and!.
  - unfold metrics.outcomeROI. apply metrics_mean_bounds; [done..|].
    apply Forall_fmap, Forall_true. intros r. cbn [compose].
    rewrite exact_of_int. eexists. split; [done|].
    unfold metrics.expectationToNumeric. repeat case_decide; split; done.
  - intros Hconf. unfold metrics.calibrationErrorFromConfidence. cbv zeta.
    case_match; [exists 0%Q; by repeat split|].
    apply metrics_mean_bounds; [done..|].
    apply Forall_fmap, Forall_fmap, Forall_forall. intros [d r] [Hd _]%reviewed_elem_of.
    rewrite Forall_forall in Hconf. specialize (Hconf d Hd). cbn [compose].
    rewrite !exact_of_int, exact_div by done.
    assert (inject_Z 0 <= inject_Z (confidence d)
            ∧ inject_Z (confidence d) <= inject_Z 100)%Q as [? ?]
      by (rewrite <-!Zle_Qle; lia).
    change (inject_Z 0) with 0%Q in *. change (inject_Z 100) with 100%Q in *.
    change (inject_Z 1) with 1%Q.
    case_bool_decide; rewrite exact_sub, exact_abs;
      (eexists; split; [done|]); rewrite !Qred_correct;
      unfold Qdiv; change (/ 100)%Q with (1 # 100)%Q;
      (split; [apply Qabs_nonneg|]); apply Qabs_Qle_condition; split; lra.
  - intros Hsur. unfold metrics.riskAdjustedRepeatRate.
    destruct (risk_sums (metrics.reviewed ds rs) 0 0) as (wy & tw & Hfold & [H0 Hle] & Hn).
    { apply Forall_forall. intros [d r] [_ Hr]%reviewed_elem_of.
      rewrite Forall_forall in Hsur. by apply Hsur. }
    { split; lra. }
    assert (foldl metrics.risk_step (of_int 0, of_int 0) (metrics.reviewed ds rs)
            = (Some wy, Some tw)) as -> by exact Hfold.
    unfold metrics.truthy, js_eq. rewrite !exact_of_int.
    destruct (Qeq_dec tw 0) as [Hz|Hnz].
    + exists 0. split; [|lia].
      assert ((Some tw <= Some (inject_Z 0))%js = true) as ->.
      { apply exact_le. rewrite Hz. done. }
      assert ((Some (inject_Z 0) <= Some tw)%js = true) as ->.
      { apply exact_le. rewrite Hz. done. }
      by rewrite andb_false_r.
    + assert ((Some tw <= Some (inject_Z 0))%js = false) as ->.
      { apply not_true_is_false. intros Hle0%exact_le.
        change (inject_Z 0) with 0%Q in Hle0. apply Hnz. lra. }
      assert ((Some tw <= Some tw)%js = true) as -> by (apply exact_le; lra).
      cbn [andb negb].
      rewrite exact_div, exact_mul, exact_Math_round by done.
      eexists. split; [done|].
      set (q := Qred (Qred (wy / tw) * inject_Z 100)).
      assert (0 <= q ∧ q <= 100)%Q as [Hq0 Hq1].
      { unfold q. rewrite !Qred_correct. change (inject_Z 100) with 100%Q.
        assert (0 < tw)%Q by lra.
        assert (0 <= wy / tw ∧ wy / tw <= 1)%Q as [? ?].
        { split; [apply Qle_shift_div_l|apply Qle_shift_div_r]; lra. }
        split; lra. }
      pose proof (Qfloor_le (q + (1 # 2))) as Hlo.
      pose proof (Qlt_floor (q + (1 # 2))) as Hhi.
      rewrite inject_Z_plus in Hhi. change (inject_Z 1) with 1%Q in Hhi.
      split.
      * apply Z.lt_succ_r. rewrite Zlt_Qlt, <-Z.add_1_r, inject_Z_plus.
        change (inject_Z 1) with 1%Q. change (inject_Z 0) with 0%Q. lra.
      * apply Z.lt_succ_r. rewrite Zlt_Qlt, <-Z.add_1_r, inject_Z_plus.
        change (inject_Z 1) with 1%Q. change (inject_Z 100) with 100%Q. lra.
  - intros Hnone. unfold metrics.calibrationErrorFromConfidence,
      metrics.riskAdjustedRepeatRate.
    rewrite (reviewed_nil ds rs Hnone). done.
Qed.

End exact_metrics.
(** ** The due queue and the order of the reviews *)

Lemma reviewed_ids_has_review (rs : list Review) (d : Decision) :
  String_of_id (d_id d) ∈ (list_to_set (decision_id <$> rs) : gset string)
  ↔ has_review rs d.
Proof.
  unfold has_review.
  rewrite elem_of_list_to_set, list_elem_of_fmap, Exists_exists.
  split; intros (r & ? & ?); exists r; done.
Qed.

(** The review the map holds for a key is the last one of the list that
    carries the key. *)
Lemma reviewMap_lookup_last rs k r :
  reviewMap rs !! k = Some r →
  ∃ l1 l2, rs = l1 ++ r :: l2 ∧ Forall (λ r', decision_id r' ≠ k) l2.
Proof.
  induction rs as [|r' rs IH] using rev_ind; [done|].
  rewrite reviewMap_snoc, lookup_insert.
  case_decide as Hk.
  - intros [= <-]. exists rs, []. by split.
  - intros (l1 & l2 & -> & Hl2)%IH. exists l1, (l2 ++ [r']). split.
    + by rewrite <- app_assoc.
    + apply Forall_app. split; [done|]. by apply Forall_singleton.
Qed.

(** The due queue is the rows read that have no review, in ascending order
    of review date, and no decision of the queue has a record among those
    the insights engine derives from the same reviews. *)
Theorem due_queue `{JSNumber} (dueDecisions : list StoredDecision)
    (ds : list Decision) (rs : list Review) :
  getDueForReview dueDecisions rs
    ≡ₚ filter (λ d, ¬ has_review rs (stored d)) dueDecisions
  ∧ StronglySorted (λ a b, review_date a ≤ review_date b)
      (getDueForReview dueDecisions rs)
  ∧ ∀ d x, d ∈ getDueForReview dueDecisions rs → x ∈ derive ds rs →
      String_of_id (d_id (decision x)) ≠ String_of_id (d_id (stored d)).
Proof.
  unfold getDueForReview. split_and!.
  - rewrite js_sort_Permutation.
    induction dueDecisions as [|d l IH]; [done|].
    rewrite !filter_cons.
    pose proof (reviewed_ids_has_review rs (stored d)) as Hd.
    destruct (decide (has_review rs (stored d))) as [Hr|Hr].
    + rewrite decide_False by tauto. rewrite (decide_False (P := ¬ _)) by tauto.
      done.
    + rewrite decide_True by tauto. rewrite (decide_True (P := ¬ _)) by tauto.
      by rewrite IH.
  - apply js_sort_by_key_sorted.
  - intros d x Hd Hx Heq.
    apply js_sort_elem_of, list_elem_of_filter in Hd as [Hd _].
    apply derive_elem_of in Hx as (d' & r & _ & Hr & Hid & ->). simpl in Heq.
    apply Hd, reviewed_ids_has_review. unfold has_review.
    apply Exists_exists. exists r. split; [done|]. by rewrite Hid, Heq.
Qed.

(** When the reviews are listed newest first, as [ReviewRepository.getAll]
    returns them to the insights page, the review of a derived record is a
    review of its decision that no other review of that decision
    precedes in time: of several reviews of one decision the oldest is
    used. *)
Theorem oldest_review_wins `{JSNumber} (ds : list Decision) (rs : list Review)
    (x : DerivedDecision) :
  StronglySorted (λ a b, reviewed_at b ≤ reviewed_at a) rs →
  x ∈ derive ds rs →
  review x ∈ rs
  ∧ decision_id (review x) = String_of_id (d_id (decision x))
  ∧ ∀ r, r ∈ rs → decision_id r = String_of_id (d_id (decision x)) →
      reviewed_at (review x) ≤ reviewed_at r.
Proof.
  intros Hsorted. rewrite derive_Permutation. unfold derive_pairs.
  rewrite list_elem_of_omap. intros (d & _ & Hx).
  destruct (reviewMap rs !! String_of_id (d_id d)) as [r0|] eqn:Hr0; [|done].
  simpl in Hx. injection Hx as <-. simpl.
  pose proof (reviewMap_lookup_Some _ _ _ Hr0) as [Hin Hid].
  split_and!; [done..|].
  apply reviewMap_lookup_last in Hr0 as (l1 & l2 & -> & Hl2).
  intros r Hr Hk.
  rewrite elem_of_app, elem_of_cons in Hr. destruct Hr as [Hr|[->|Hr]].
  - apply (StronglySorted_app_1_elem_of _ _ _ r r0) in Hsorted; [done..|]. apply elem_of_cons; by left.
  - lia.
  - rewrite Forall_forall in Hl2. by destruct (Hl2 r Hr).
Qed.

Lemma oldest_review_wins_witness :
  Forall (λ x, reviewed_at (review x) ≤ 1000)
         (@derive Exact.number twice_decisions twice_reviews).
Proof.
  apply Forall_forall. intros x Hx.
  destruct (oldest_review_wins twice_decisions twice_reviews x)
    as (Hin & Hid & Hmin); [|done|].
  { apply (bool_decide_unpack _). by vm_compute. }
  assert (decision_id (review x) = "1") as Hone.
  { revert Hin. unfold twice_reviews.
    rewrite !elem_of_cons, elem_of_nil. by intros [->|[->|[]]]. }
  rewrite Hone in Hid.
  apply (Hmin {| decision_id := "1"; expectation_comparison := "much_worse";
                 surprise_score := 90; would_repeat := Some "no";
                 reviewed_at := 1000 |}); [|done].
  unfold twice_reviews. rewrite !elem_of_cons. tauto.
Defined.

(** ** Concrete runs *)

(** Counterexample for C2 as stated: the strength of a trend card is decided on the
    rounded delta.  Here the mean calibration error of the last 9 pairs
    exceeds that of the 9 pairs before by 11/90 = 0.1222..., which is more
    than 0.12, and the calibration-trend card is medium: it reports, and
    compares, the rounded delta 0.12.  Doubles give the same card. *)
Lemma trend_strength_from_rounded_delta :
  let exact := @derive Exact.number drift_decisions drift_reviews in
  let double := @derive Binary64.number drift_decisions drift_reviews in
  length exact = 18%nat
  ∧ mean_delta (drop 9 exact) (take 9 exact) calibrationError = Some (11 # 90)%Q
  ∧ (12 # 100 < 11 # 90)%Q
  ∧ analyzeTrends exact
    = [@trend_card_of Exact.number "calibration" "calErrorDelta" 9
         (of_ratio 12 100) (of_ratio 12 100)]
  ∧ strength <$> analyzeTrends exact = [medium]
  ∧ (Math_abs (mean_delta (drop 9 double) (take 9 double) calibrationError)
     > of_ratio 12 100)%js = true
  ∧ card_id <$> analyzeTrends double = ["trend-calibration"]
  ∧ strength <$> analyzeTrends double = [medium].
Proof. vm_compute. repeat split. Qed.

(** Counterexample for C6 as stated: two reviews with the same time keep the order
    their decisions have in the input, and the two windows of the trend
    analyzer change with it.  The surprise trend is +16.67 for one order of
    the decisions and -16.67 for the other.  And of two reviews of one
    decision the later one in the input is used: the baseline's average
    surprise is 20 for one order of the reviews and 10 for the other. *)
Lemma tied_reviews_order_matters :
  tied_decisions ≡ₚ tied_decisions_swapped
  ∧ NoDup (decision_id <$> tied_reviews)
  ∧ cards (@generateInsights Exact.number tied_decisions tied_reviews)
    ≠ cards (@generateInsights Exact.number tied_decisions_swapped tied_reviews)
  ∧ cards (@generateInsights Binary64.number tied_decisions tied_reviews)
    ≠ cards (@generateInsights Binary64.number tied_decisions_swapped tied_reviews)
  ∧ two_reviews ≡ₚ reverse two_reviews
  ∧ avgSurprise (baseline (@generateInsights Exact.number twice_reviewed two_reviews))
    = of_int 20
  ∧ avgSurprise (baseline (@generateInsights Exact.number twice_reviewed
                             (reverse two_reviews)))
    = of_int 10.
Proof.
  split_and!.
  - unfold tied_decisions, tied_decisions_swapped. do 2 f_equiv.
    apply Permutation_swap.
  - apply (bool_decide_unpack _). vm_compute. reflexivity.
  - intros Heq%(f_equal (fmap (M:=list) (fmap (M:=list) ev_value ∘ evidence))).
    vm_compute in Heq. congruence.
  - intros Heq%(f_equal (fmap (M:=list) (fmap (M:=list) ev_value ∘ evidence))).
    vm_compute in Heq. congruence.
  - by rewrite reverse_Permutation.
  - vm_compute. reflexivity.
  - vm_compute. reflexivity.
Qed.



(** C5, at the input on which the code departs from it: the outcome
    [constructor] is not a key of the outcome table, and it is not coerced
    to 0: the lookup finds the member every object inherits, the outcome
    score is not a number, and the baseline's average outcome score is NaN,
    on exact numbers and on doubles alike.  ([generateInsights_finite]
    covers all other outcome values.) *)
Theorem inherited_outcome_gives_NaN :
  OUTCOME_SCORE_MAP !! "constructor" = None
  ∧ OUTCOME_SCORE_MAP_get "constructor" = inherited
  ∧ @outcome_score Exact.number "constructor" = NaN
  ∧ @outcome_score Exact.number "constructor" ≠ of_int 0
  ∧ avgOutcomeScore
      (baseline (@generateInsights Exact.number inherited_decisions inherited_reviews))
    = NaN
  ∧ avgOutcomeScore
      (baseline (@generateInsights Binary64.number inherited_decisions
                   inherited_reviews))
    = S754_nan.
Proof. vm_compute. repeat split. discriminate. Qed.

Lemma baseline_review_count_witness :
  reviewCount (baseline (@generateInsights Exact.number [] [])) = 0%nat
  ∧ avgOutcomeScore (baseline (@generateInsights Exact.number [] [])) = of_int 0
  ∧ avgSurprise (baseline (@generateInsights Exact.number [] [])) = of_int 0
  ∧ avgCalibrationError (baseline (@generateInsights Exact.number [] [])) = of_int 0.
Proof.
  split; [reflexivity|].
  apply (@baseline_review_count Exact.number [] []). reflexivity.
Defined.

Lemma cards_empty_below_three_witness :
  cards (@generateInsights Exact.number inherited_decisions inherited_reviews) = [].
Proof.
  apply (@cards_empty_below_three Exact.number inherited_decisions inherited_reviews).
  vm_compute. lia.
Defined.

Lemma calibration_summary_first_witness :
  ∃ c rest,
    cards (@generateInsights Exact.number eighth_decisions eighth_reviews) = c :: rest
    ∧ card_id c = "calibration-summary" ∧ strength c = strong.
Proof.
  destruct (@calibration_summary_first Exact.number eighth_decisions eighth_reviews)
    as [Hfirst _].
  destruct Hfirst as (c & rest & Hcards & _ & Hid & Hstrength).
  - vm_compute. lia.
  - exists c, rest. split_and!; [done..|]. rewrite Hstrength. vm_compute.
    reflexivity.
Defined.

Lemma insights_order_independent_witness :
  baseline (@generateInsights Exact.number eighth_decisions eighth_reviews)
  = baseline (generateInsights (reverse eighth_decisions) (reverse eighth_reviews))
  ∧ cards (@generateInsights Exact.number eighth_decisions eighth_reviews)
    = cards (generateInsights (reverse eighth_decisions) (reverse eighth_reviews)).
Proof.
  apply (@insights_order_independent Exact.number).
  - by rewrite reverse_Permutation.
  - by rewrite reverse_Permutation.
  - apply (bool_decide_unpack _). vm_compute. reflexivity.
  - apply (bool_decide_unpack _). vm_compute. reflexivity.
Defined.

Lemma trend_cards_by_rounded_delta_witness :
  has_card (@analyzeTrends Exact.number (derive drift_decisions drift_reviews))
           "trend-calibration".
Proof.
  destruct (@trend_cards_by_rounded_delta Exact.number
              (derive drift_decisions drift_reviews)) as (_ & Hcards & _).
  destruct Hcards as (_ & _ & _ & _ & _ & Hcal & _).
  - vm_compute. lia.
  - apply Hcal. vm_compute. reflexivity.
Defined.



Lemma generateInsights_finite_witness :
  finite_insights (@generateInsights Exact.number third_decisions third_reviews).
Proof.
  apply (generateInsights_finite third_decisions third_reviews).
  apply (bool_decide_unpack _). vm_compute. reflexivity.
Defined.

(** The record deriver returns one record per decision that has a review,
    each the decision joined with the last review of the input that carries
    its id, in ascending order of review time. *)
Theorem derive_contract `{JSNumber} (ds : list Decision) (rs : list Review) :
  StronglySorted (λ a b, reviewedAt a ≤ reviewedAt b) (derive ds rs)
  ∧ length (derive ds rs) = length (filter (has_review rs) ds)
  ∧ derive ds rs
    ≡ₚ omap (λ d, derive_one d <$> last (filter (λ r, decision_id r = String_of_id (d_id d)) rs)) ds.
Proof.
  split_and!; [apply derive_sorted|apply derive_length|].
  rewrite derive_Permutation. unfold derive_pairs.
  assert (∀ k, reviewMap rs !! k = last (filter (λ r, decision_id r = k) rs)) as Hget.
  { intros k. induction rs as [|r rs IH] using rev_ind; [done|].
    rewrite reviewMap_snoc, lookup_insert, filter_app, filter_cons, filter_nil.
    case_decide as Hk; [by rewrite last_snoc|by rewrite app_nil_r]. }
  induction ds as [|d ds IH]; [done|]. csimpl. rewrite Hget.
  destruct (last _); simpl; by rewrite IH.
Qed.
